(** * LLMJapTranslator: the dialogue-block parser and the structured-output
    recovery protocol, embedded from [nss_file_extractor_git.py] and
    [vn_translator_git.py].

    Python [str] values are modelled as Rocq [string]s holding the UTF-8
    encoding of the text.  UTF-8 is self-synchronising, so the substring test
    [x in s], [str.splitlines], [str.strip] and iteration over code points
    can all be computed on the encoding; each is written out below.

    A [str] can also hold a lone surrogate (a code point from U+D800 to
    U+DFFF): [json.loads] gives one for an unpaired escape such as [\ud83d].
    UTF-8 does not encode it, so writing it to a file opened with
    [encoding='utf-8'] raises [UnicodeEncodeError].  Here it is held as the
    three bytes that the scheme of UTF-8 would give it ([ED], then a byte from
    [A0] to [BF], then a continuation byte), which no text that UTF-8 encodes
    contains. *)

From Stdlib Require Import String Ascii List Bool Arith NArith ZArith Lia.
From Stdlib Require Import DecimalString.
Import ListNotations.
Open Scope string_scope.
Set Warnings "-register-all".

(** ** Python built-ins used by both programs *)
Module Py.

(** The byte with code [n]. *)
Definition byte (n : N) : ascii := ascii_of_N n.

Definition byte_is (n : N) (c : ascii) : bool := N.eqb (N_of_ascii c) n.

Definition byte_in (lo hi : N) (c : ascii) : bool :=
  N.leb lo (N_of_ascii c) && N.leb (N_of_ascii c) hi.

(** [s.startswith(p)]. *)
Fixpoint startswith (p s : string) : bool :=
  match p, s with
  | EmptyString, _ => true
  | String a p', String b s' => Ascii.eqb a b && startswith p' s'
  | String _ _, EmptyString => false
  end.

(** [needle in hay] on strings. *)
Fixpoint contains (needle hay : string) : bool :=
  startswith needle hay ||
  match hay with
  | EmptyString => false
  | String _ hay' => contains needle hay'
  end.

(** [s[n:]]. *)
Fixpoint drop (n : nat) (s : string) : string :=
  match n, s with
  | O, _ => s
  | S n', String _ s' => drop n' s'
  | S _, EmptyString => EmptyString
  end.

(** The text before and after the first occurrence of [sep] in [s]
    ([s.partition(sep)] when [sep] occurs, [None] otherwise). *)
Fixpoint split_first (sep s : string) : option (string * string) :=
  if startswith sep s then Some (EmptyString, drop (String.length sep) s)
  else
    match s with
    | EmptyString => None
    | String c s' =>
        match split_first sep s' with
        | Some (before, after) => Some (String c before, after)
        | None => None
        end
    end.

(** One-byte line boundaries of [str.splitlines] other than CR:
    LF, VT, FF, FS, GS, RS. *)
Definition linebreak1 (c : ascii) : bool :=
  byte_in 10 12 c || byte_in 28 30 c.

(** [s.splitlines()]: the boundaries are LF, CR, CR LF, VT, FF, FS, GS, RS,
    NEL (U+0085, bytes C2 85), LS and PS (U+2028, U+2029, bytes E2 80 A8/A9);
    a final line is kept only when it is not empty.  [cur] is the line read
    so far. *)
Fixpoint splitlines_from (cur s : string) : list string :=
  let keep c := cur ++ String c EmptyString in
  match s with
  | EmptyString => if String.eqb cur EmptyString then [] else [cur]
  | String c s1 =>
      if byte_is 13 c then
        match s1 with
        | String c2 s2 =>
            if byte_is 10 c2 then cur :: splitlines_from EmptyString s2
            else cur :: splitlines_from EmptyString s1
        | EmptyString => cur :: splitlines_from EmptyString s1
        end
      else if linebreak1 c then cur :: splitlines_from EmptyString s1
      else
        match s1 with
        | String c2 s2 =>
            if byte_is 194 c && byte_is 133 c2
            then cur :: splitlines_from EmptyString s2
            else
              match s2 with
              | String c3 s3 =>
                  if byte_is 226 c && byte_is 128 c2 && byte_in 168 169 c3
                  then cur :: splitlines_from EmptyString s3
                  else splitlines_from (keep c) s1
              | EmptyString => splitlines_from (keep c) s1
              end
        | EmptyString => splitlines_from (keep c) s1
        end
  end.

Definition splitlines (s : string) : list string :=
  splitlines_from EmptyString s.

(** A UTF-8 continuation byte (10xxxxxx). *)
Definition is_continuation (c : ascii) : bool := byte_in 128 191 c.

(** Iterating over a [str] yields its code points, each as a one-character
    string: every lead byte is grouped with the continuation bytes after it. *)
Fixpoint codepoints (s : string) : list string :=
  match s with
  | EmptyString => []
  | String c s' =>
      match s' with
      | String c' _ =>
          if is_continuation c' then
            match codepoints s' with
            | g :: gs => String c g :: gs
            | [] => [String c EmptyString]
            end
          else String c EmptyString :: codepoints s'
      | EmptyString => [String c EmptyString]
      end
  end.

(** Whitespace of [str.strip()] ([str.isspace]): U+0009..U+000D,
    U+001C..U+0020, U+0085, U+00A0, U+1680, U+2000..U+200A, U+2028, U+2029,
    U+202F, U+205F, U+3000, by the length of the encoding. *)
Definition space1 (c : ascii) : bool := byte_in 9 13 c || byte_in 28 32 c.

Definition space2 (c1 c2 : ascii) : bool :=
  byte_is 194 c1 && (byte_is 133 c2 || byte_is 160 c2).

Definition space3 (c1 c2 c3 : ascii) : bool :=
  (byte_is 225 c1 && byte_is 154 c2 && byte_is 128 c3) ||
  (byte_is 226 c1 && byte_is 128 c2 &&
     (byte_in 128 138 c3 || byte_in 168 169 c3 || byte_is 175 c3)) ||
  (byte_is 226 c1 && byte_is 129 c2 && byte_is 159 c3) ||
  (byte_is 227 c1 && byte_is 128 c2 && byte_is 128 c3).

(** Dropping leading whitespace; [sp2] and [sp3] read the bytes in the order
    they stand in the argument, so the same function serves the reversed
    string. *)
Fixpoint lstrip_with (sp2 : ascii -> ascii -> bool)
    (sp3 : ascii -> ascii -> ascii -> bool) (s : string) : string :=
  match s with
  | EmptyString => EmptyString
  | String c1 s1 =>
      if space1 c1 then lstrip_with sp2 sp3 s1
      else
        match s1 with
        | String c2 s2 =>
            if sp2 c1 c2 then lstrip_with sp2 sp3 s2
            else
              match s2 with
              | String c3 s3 =>
                  if sp3 c1 c2 c3 then lstrip_with sp2 sp3 s3 else s
              | EmptyString => s
              end
        | EmptyString => s
        end
  end.

Fixpoint rev_string (acc s : string) : string :=
  match s with
  | EmptyString => acc
  | String c s' => rev_string (String c acc) s'
  end.

Definition lstrip (s : string) : string := lstrip_with space2 space3 s.

Definition rstrip (s : string) : string :=
  rev_string EmptyString
    (lstrip_with (fun a b => space2 b a) (fun a b c => space3 c b a)
       (rev_string EmptyString s)).

(** [s.strip()]. *)
Definition strip (s : string) : string := rstrip (lstrip s).

(** [str(n)] for a non-negative [int]. *)
Definition str_of_nat (n : nat) : string :=
  NilEmpty.string_of_uint (Nat.to_uint n).

(** The line feed and the double quote, as one-character strings. *)
Definition LF : string := String (byte 10) EmptyString.
Definition DQ : string := String (byte 34) EmptyString.

(** The matches of [re.findall(r'```json(.*?)```', s, re.DOTALL)]: the lazy
    group stops at the first closing fence, and the scan resumes after it.
    Every match consumes at least ten characters, so [fuel] of the length of
    the text is never exhausted. *)
Fixpoint findall_json_fuel (fuel : nat) (s : string) : list string :=
  match fuel with
  | O => []
  | S fuel' =>
      match split_first "```json" s with
      | None => []
      | Some (_, after) =>
          match split_first "```" after with
          | None => []
          | Some (body, rest) => body :: findall_json_fuel fuel' rest
          end
      end
  end.

Definition findall_json (s : string) : list string :=
  findall_json_fuel (String.length s) s.

(** The matches of [re.findall(r'<PRE.*?>(.*?)</PRE>', s, re.DOTALL)]: after
    [<PRE] the first lazy group stops at the first [>], the captured group at
    the first [</PRE>] after it; when either is missing no later start can
    match. *)
Fixpoint findall_pre_fuel (fuel : nat) (s : string) : list string :=
  match fuel with
  | O => []
  | S fuel' =>
      match split_first "<PRE" s with
      | None => []
      | Some (_, after) =>
          match split_first ">" after with
          | None => []
          | Some (_, inside) =>
              match split_first "</PRE>" inside with
              | None => []
              | Some (body, rest) => body :: findall_pre_fuel fuel' rest
              end
          end
      end
  end.

Definition findall_pre (s : string) : list string :=
  findall_pre_fuel (String.length s) s.

(** Values of the [json] module.  Numbers are the integers: a float is
    outside this model. *)
Inductive json : Type :=
| JNull
| JBool (b : bool)
| JInt (z : Z)
| JStr (s : string)
| JArr (items : list json)
| JObj (fields : list (string * json)).

(** A [dict] with [str] keys keeps its insertion order: an association list
    with one pair per key. *)
Fixpoint dict_get (k : string) (d : list (string * json)) : option json :=
  match d with
  | [] => None
  | (k', v) :: d' => if String.eqb k k' then Some v else dict_get k d'
  end.

Definition dict_has (k : string) (d : list (string * json)) : bool :=
  match dict_get k d with Some _ => true | None => false end.

(** [d[k] = v]: the value is replaced where the key stands, a new key goes
    last. *)
Fixpoint dict_set (k : string) (v : json) (d : list (string * json))
  : list (string * json) :=
  match d with
  | [] => [(k, v)]
  | (k', v') :: d' =>
      if String.eqb k k' then (k', v) :: d' else (k', v') :: dict_set k v d'
  end.

(** Truth value of an object ([if x:]). *)
Definition truthy (v : json) : bool :=
  match v with
  | JNull => false
  | JBool b => b
  | JInt z => negb (Z.eqb z 0)
  | JStr s => negb (String.eqb s EmptyString)
  | JArr items => match items with [] => false | _ => true end
  | JObj fields => match fields with [] => false | _ => true end
  end.

Definition opt_str (o : option string) : json :=
  match o with Some s => JStr s | None => JNull end.

(** Whether the [str] holds a lone surrogate: the byte [ED] is always the
    first of a code point, and the next byte tells a surrogate ([A0] to
    [BF]) from the code points U+D000 to U+D7FF ([80] to [9F]). *)
Fixpoint lone_surrogate (s : string) : bool :=
  match s with
  | EmptyString => false
  | String c rest =>
      match rest with
      | EmptyString => false
      | String d _ =>
          (byte_is 237 c && byte_in 160 191 d) || lone_surrogate rest
      end
  end.

(** Whether [json.dump(v, file, ensure_ascii=False)] can write [v] to a file
    opened with [encoding='utf-8']: no key and no [str] in it holds a lone
    surrogate. *)
Fixpoint encodable (v : json) : bool :=
  match v with
  | JStr s => negb (lone_surrogate s)
  | JArr items => forallb encodable items
  | JObj fields =>
      forallb (fun kv => negb (lone_surrogate (fst kv)) && encodable (snd kv))
        fields
  | _ => true
  end.

(** Exceptions the programs can meet. *)
Inductive exn : Type :=
| KeyError (key : string)
| TypeError
| AttributeError
| IndexError
| JSONDecodeError (msg : string)
| OSError (msg : string)
| UnicodeEncodeError.

Inductive result (A : Type) : Type :=
| Ok (a : A)
| Raise (e : exn).
Arguments Ok {A} a.
Arguments Raise {A} e.

End Py.

(** ** [nss_file_extractor_git.py] *)
Module NssExtractor.
Import Py.

(** The record [ele] that [process_content] builds for one block; the keys
    ["text label"], ["Name"], ["voice tag"] and ["text"] in this order. *)
Record element : Type := mk_element {
  text_label : option string;
  Name : list (option string);
  voice_tag : list (option string);
  text : list string
}.

Definition new_element : element :=
  {| text_label := None; Name := []; voice_tag := []; text := [] |}.

(** [if len(xs) != n: xs.append(None)]. *)
Definition append_none_unless (n : nat) (xs : list (option string))
  : list (option string) :=
  if Nat.eqb (List.length xs) n then xs else xs ++ [None].

(** The branch that opens an utterance (lines 60-64 and 75-79). *)
Definition open_utterance (ele : element) (line : string) : element :=
  {| text_label := text_label ele;
     Name := append_none_unless (List.length (text ele) + 1) (Name ele);
     voice_tag := append_none_unless (List.length (text ele) + 1) (voice_tag ele);
     text := text ele ++ [line] |}.

(** [ele["text"][-1] = ele["text"][-1] + "\n" + line] on a list that is not
    empty. *)
Fixpoint extend_last (texts : list string) (line : string) : list string :=
  match texts with
  | [] => []
  | [t] => [t ++ LF ++ line]
  | t :: texts' => t :: extend_last texts' line
  end.

(** The body of the loop over the lines of a block (lines 56-81). *)
Definition process_line (ele : element) (line : string) : element :=
  if String.eqb line EmptyString then ele
  else if contains "[text" line then
    {| text_label := Some line; Name := Name ele;
       voice_tag := voice_tag ele; text := text ele |}
  else if contains "「" line then open_utterance ele line
  else if contains "【" line then
    {| text_label := text_label ele; Name := Name ele ++ [Some line];
       voice_tag := voice_tag ele; text := text ele |}
  else if contains "<voice" line then
    {| text_label := text_label ele;
       Name := append_none_unless (List.length (voice_tag ele) + 1) (Name ele);
       voice_tag := voice_tag ele ++ [Some line]; text := text ele |}
  else
    match text ele with
    | [] =>
        {| text_label := text_label ele; Name := Name ele;
           voice_tag := voice_tag ele; text := [line] |}
    | t :: ts =>
        if contains "」" (List.last ts t) then open_utterance ele line
        else
          {| text_label := text_label ele; Name := Name ele;
             voice_tag := voice_tag ele; text := extend_last (text ele) line |}
    end.

(** The record of one block, from its lines. *)
Definition process_lines (lines : list string) : element :=
  fold_left process_line lines new_element.

Definition process_entry (entry : string) : element :=
  process_lines (splitlines entry).

Definition process_content (content : list string) : list element :=
  map process_entry content.

(** What [extract_pre_content] returns: the list of matches, or a [str]. *)
Inductive pre_contents : Type :=
| PyList (matches : list string)
| PyStr (s : string).

Definition ENCODING_ERROR : string := "<Encoding Error>".

(** [if pre_contents:]. *)
Definition nonempty (p : pre_contents) : bool :=
  match p with
  | PyList matches => match matches with [] => false | _ => true end
  | PyStr s => negb (String.eqb s EmptyString)
  end.

(** [for entry in content]: a list yields its items, a [str] its
    characters. *)
Definition entries (p : pre_contents) : list string :=
  match p with
  | PyList matches => matches
  | PyStr s => codepoints s
  end.

(** The file system and [os.path], as the program meets them.
    [detect_encoding] is [None] when opening the file raises and otherwise
    the label chardet reports (itself possibly [None]); [read_as] is the text
    read under that label, [None] when opening or decoding raises;
    [dump_error] is the text of the exception raised on writing to a path,
    [None] when the write succeeds. *)
Record FileSystem : Type := {
  walk : string -> list (string * list string);
  path_join : string -> string -> string;
  splitext : string -> string * string;
  detect_encoding : string -> option (option string);
  read_as : string -> option string -> option string;
  dump_error : string -> option string
}.

(** What a run prints and writes, in order. *)
Inductive event : Type :=
| Printed (line : string)
| Dumped (path : string) (document : json).

Definition element_json (ele : element) : json :=
  JObj [("text label", opt_str (text_label ele));
        ("Name", JArr (map opt_str (Name ele)));
        ("voice tag", JArr (map opt_str (voice_tag ele)));
        ("text", JArr (map JStr (text ele)))].

Definition extract_pre_content (fs : FileSystem) (file_path : string)
  : pre_contents :=
  match detect_encoding fs file_path with
  | None => PyStr ENCODING_ERROR
  | Some encoding =>
      match read_as fs file_path encoding with
      | None => PyStr ENCODING_ERROR
      | Some content => PyList (findall_pre content)
      end
  end.

Definition save_content_to_json (fs : FileSystem) (content : pre_contents)
    (json_path : string) : list event :=
  match dump_error fs json_path with
  | None =>
      [Dumped json_path
         (JObj [("content",
                 JArr (map element_json (process_content (entries content))))]);
       Printed ("Content saved to " ++ json_path)]
  | Some e =>
      [Printed ("Error saving content to " ++ json_path ++ ": " ++ e)]
  end.

(** The body of the loop over the files of one directory (lines 91-100). *)
Definition process_file (fs : FileSystem) (out_path root file_name : string)
  : list event :=
  let file_path := path_join fs root file_name in
  let pre := extract_pre_content fs file_path in
  Printed ("Processing file: " ++ file_path) ::
  (if nonempty pre then
     save_content_to_json fs pre
       (fst (splitext fs (path_join fs out_path file_name)) ++ ".json")
   else []).

Definition process_folder (fs : FileSystem) (folder_path out_path : string)
  : list event :=
  flat_map
    (fun dir => flat_map (process_file fs out_path (fst dir)) (snd dir))
    (walk fs folder_path).

End NssExtractor.

(** ** [vn_translator_git.py] *)
Module VnTranslator.
Import Py.

(** *** Constants of the module *)

Definition AYA_EXP : string :=
  "aya-expanse".

Definition VN_NSS_JSON_TRANSLATION_INSTRUCTION : string :=
  "
You will be given a list of jsons in the following format:
```json
{
    " ++ DQ ++
  "text" ++ DQ ++
  ": [
        " ++ DQ ++
  "「んなバカな！」" ++ DQ ++
  ",
        " ++ DQ ++
  "「そんな単純に、セカイが滅びるかッ！」" ++ DQ ++
  "
    ]
}
You have to return the same json, but the values in " ++ DQ ++
  "Name" ++ DQ ++
  " and " ++ DQ ++
  "text" ++ DQ ++
  " field 
translated to english, for the above example, this will be the output:
```json
{
    " ++ DQ ++
  "text" ++ DQ ++
  ": [
        " ++ DQ ++
  "No way!" ++ DQ ++
  ",
        " ++ DQ ++
  "The world won't end that easily!" ++ DQ ++
  "
    ]
}
```
Sometimes, in the " ++ DQ ++
  "text" ++ DQ ++
  " field, you will find <RUBY></RUBY> tag(s), like this:
`伝説の初代<RUBY text=" ++ DQ ++
  "エトワール" ++ DQ ++
  ">魔女</RUBY>`
Make sure to keep the tags and translate the text, for example for above, the translated
form will be:
`The legendary first-generation <RUBY text=" ++ DQ ++
  "Etoile" ++ DQ ++
  ">witch</RUBY>`
Now with above rules in mind, translate the following json:
".

Definition CHECK_GLOSSARY : string :=
  "
I am going to give you a glossary,
The keys are japanese names, and the nested json structure's 'actualname' key
is the word to be used, and 'gender' gives the gender incase it is necessary
The exact format of the json is like: 
[
    " ++ DQ ++
  "japanesename1" ++ DQ ++
  " : {
        " ++ DQ ++
  "actualname" ++ DQ ++
  ": " ++ DQ ++
  "English translation of japanesename1 to be used" ++ DQ ++
  ",
        " ++ DQ ++
  "gender" ++ DQ ++
  ": " ++ DQ ++
  "Gender of the japanesename1" ++ DQ ++
  ",
    },
    " ++ DQ ++
  "japanesename2" ++ DQ ++
  " : {
        " ++ DQ ++
  "actualname" ++ DQ ++
  ": " ++ DQ ++
  "English translation of japanesename2 to be used" ++ DQ ++
  ",
        " ++ DQ ++
  "gender" ++ DQ ++
  ": " ++ DQ ++
  "Gender of the japanesename2" ++ DQ ++
  ",
    },
...]
Now you will be asked to translate some text with above glossary
While translating the text, wherever one of the japanese name above appears in japanese text
Use the actualname in the translated text as equivalent
If japanese name does not exist in the glossary use your best guess.
Here is the Glossary:
".

Definition SYSTEM_PROMPT : string :=
  "
You are a sophisticated and precise japanese to english translator, 
that translates with all the implied nuance when required 
, is specialized in analyzing given japanese text, 
and giving accurate json format output in the precise manner 
the user asks you to.
".

(** [FIX_JSON_PROMPT_TEMPLATE.format(incorrectJson, error)]: the template
    with its two fields filled in. *)
Definition FIX_JSON_PROMPT_TEMPLATE (incorrectJson error : string) : string :=
  "
The following json string:

" ++ DQ ++ incorrectJson ++ DQ ++ "

Failed to load with the following error:

" ++ DQ ++ error ++ DQ ++ "

Please check and fix the json string.
".

(** *** Collaborators

    [json_loads] is [json.loads]: the value, or the text of the exception.
    [json_dumps] is [json.dumps(v, ensure_ascii=False)] and
    [json_dumps_indent] the same with [indent=4]; [py_str] is [str(v)] as an
    f-string renders it.  [json.dump(v, file, ensure_ascii=False, indent=4)]
    sends the text of [json_dumps_indent] to the file chunk by chunk, and the
    first chunk that holds a lone surrogate raises: [json_dump_cut v] is what
    the chunks before it come to, and [json_dump_error v] the text of the
    exception.  [ollama_chat n model system prompt] is the content
    of the reply to the request number [n] of the run ([None] when the call
    raises).  [open_error] is the text of the exception raised on opening a
    path for writing, [None] when it can be written. *)
Record World : Type := {
  json_loads : string -> string + json;
  json_dumps : json -> string;
  json_dumps_indent : json -> string;
  json_dump_cut : json -> string;
  json_dump_error : json -> string;
  py_str : json -> string;
  ollama_chat : nat -> string -> string -> string -> option string;
  walk : string -> list (string * list string);
  path_join : string -> string -> string;
  open_error : string -> option string
}.

(** What a run does, in order: lines printed, requests sent to the
    generation service, calls of [json.loads], files written. *)
Inductive event : Type :=
| Printed (line : string)
| Asked (model system_prompt prompt : string)
| Parsed (s : string)
| Wrote (path content : string).

(** The files that can be read, latest write first, and the events so far. *)
Record state : Type := {
  files : list (string * string);
  output : list event
}.

Definition is_asked (e : event) : bool :=
  match e with Asked _ _ _ => true | _ => false end.

Definition is_parsed (e : event) : bool :=
  match e with Parsed _ => true | _ => false end.

(** Requests to the generation service, and parse attempts, among events. *)
Definition requests (evs : list event) : nat :=
  List.length (filter is_asked evs).

Definition parse_attempts (evs : list event) : nat :=
  List.length (filter is_parsed evs).

Definition emit (e : event) (st : state) : state :=
  {| files := files st; output := output st ++ [e] |}.

(** Computations: a result or an exception, and the state after. *)
Definition M (A : Type) : Type := state -> result A * state.

Definition ret {A : Type} (a : A) : M A := fun st => (Ok a, st).

Definition bind {A B : Type} (m : M A) (k : A -> M B) : M B :=
  fun st =>
    match m st with
    | (Ok a, st') => k a st'
    | (Raise e, st') => (Raise e, st')
    end.

Definition lift {A : Type} (r : result A) : M A := fun st => (r, st).

Notation "x <- m ;; k" := (bind m (fun x => k))
  (at level 61, m at next level, right associativity).
Notation "m ;; k" := (bind m (fun _ => k))
  (at level 61, right associativity).

(** [print(line)].  How the standard output encodes is set outside the
    program: it is taken to accept every line. *)
Definition print (line : string) : M unit :=
  fun st => (Ok tt, emit (Printed line) st).

Definition loads (w : World) (s : string) : M (string + json) :=
  fun st => (Ok (json_loads w s), emit (Parsed s) st).

Fixpoint lookup_file (path : string) (fs : list (string * string))
  : option string :=
  match fs with
  | [] => None
  | (p, content) :: fs' =>
      if String.eqb path p then Some content else lookup_file path fs'
  end.

(** [open(path, 'r', encoding='utf-8')] and [file.read()]. *)
Definition read_file (path : string) : M string :=
  fun st =>
    match lookup_file path (files st) with
    | Some content => (Ok content, st)
    | None => (Raise (OSError path), st)
    end.

(** The file at [path], opened for writing, is closed holding [content]. *)
Definition closes (path content : string) : M unit :=
  fun st =>
    (Ok tt, {| files := (path, content) :: files st;
               output := output st ++ [Wrote path content] |}).

(** [with open(path, 'w', encoding='utf-8') as file:
    json.dump(v, file, ensure_ascii=False, indent=4)].  Opening can raise;
    then the chunks go to the file one by one, and one that cannot be encoded
    raises, the chunks before it staying in the file. *)
Definition dump_file (w : World) (path : string) (v : json) : M unit :=
  match open_error w path with
  | Some e => lift (Raise (OSError e))
  | None =>
      if encodable v then closes path (json_dumps_indent w v)
      else closes path (json_dump_cut w v) ;; lift (Raise UnicodeEncodeError)
  end.

(** What [file.writelines(lines)] gets into the file: the lines before the
    first one that cannot be encoded. *)
Fixpoint lines_through (lines : list string) : string :=
  match lines with
  | [] => EmptyString
  | line :: rest =>
      if lone_surrogate line then EmptyString
      else line ++ lines_through rest
  end.

(** [with open(path, 'w', encoding='utf-8') as file:
    file.writelines(lines)]. *)
Definition write_lines (w : World) (path : string) (lines : list string)
  : M unit :=
  match open_error w path with
  | Some e => lift (Raise (OSError e))
  | None =>
      closes path (lines_through lines) ;;
      if forallb (fun line => negb (lone_surrogate line)) lines then ret tt
      else lift (Raise UnicodeEncodeError)
  end.

(** A [for] loop that threads an accumulator. *)
Fixpoint for_each {A B : Type} (body : B -> A -> M B) (xs : list A) (acc : B)
  : M B :=
  match xs with
  | [] => ret acc
  | x :: xs' => acc' <- body acc x ;; for_each body xs' acc'
  end.

Definition enumerate {A : Type} (xs : list A) : list (nat * A) :=
  combine (seq 0 (List.length xs)) xs.

(** [v[k]] for a [str] key. *)
Definition getitem (v : json) (k : string) : result json :=
  match v with
  | JObj fields =>
      match dict_get k fields with
      | Some x => Ok x
      | None => Raise (KeyError k)
      end
  | _ => Raise TypeError
  end.

(** [v[k] = x] for a [str] key. *)
Definition setitem (v : json) (k : string) (x : json) : result json :=
  match v with
  | JObj fields => Ok (JObj (dict_set k x fields))
  | _ => Raise TypeError
  end.

(** [for x in v]: the items of a list, the keys of a dict, the characters
    of a str. *)
Definition iterate (v : json) : result (list json) :=
  match v with
  | JArr items => Ok items
  | JObj fields => Ok (map (fun kv => JStr (fst kv)) fields)
  | JStr s => Ok (map JStr (codepoints s))
  | _ => Raise TypeError
  end.

(** *** The class [VnTranslator] *)
Record VnTranslator : Type := {
  raw_loc : string;
  raw_glossary_loc : string;
  glossary_loc : string;
  raw_translate_loc : string;
  refined_translation_loc : string;
  loaded_glossary : list (string * json);
  summary_file : string
}.

Definition get_instruction_prompt (instructions input_text : string) : string :=
  instructions ++ input_text.

Definition do_with_text (w : World) (prompt model system_prompt : string)
  : M string :=
  fun st =>
    let st' := emit (Asked model system_prompt prompt) st in
    match ollama_chat w (requests (output st)) model system_prompt prompt with
    | Some content => (Ok (strip content), st')
    | None => (Raise (OSError "ollama"), st')
    end.

Definition getFixJsonPrompt (incorrectJson error : string) : string :=
  FIX_JSON_PROMPT_TEMPLATE incorrectJson error.

(** The failure message of [loadJsonWithReTry] (lines 368-369). *)
Definition failure_message (json_index : nat) (file_name json_str e : string)
  : string :=
  "Unable to load json string at inex: " ++ str_of_nat json_index ++
  " from file: " ++ file_name ++ "." ++
  "The json string is " ++ LF ++ LF ++ " " ++ json_str ++ " " ++ LF ++ LF ++
  " and error received is " ++ LF ++ LF ++ e ++ LF ++ LF.

(** [loadJsonWithReTry]: the pair [(json_data, failure)], [None] being
    [JNull] for the data and [None] for the failure. *)
Definition loadJsonWithReTry (w : World) (file_name : string)
    (json_index : nat) (json_str : string) : M (json * option string) :=
  first <- loads w (strip json_str) ;;
  match first with
  | inr json_data => ret (json_data, None)
  | inl e =>
      print ("JSON extraction for " ++ file_name ++ ", for element " ++
             str_of_nat json_index ++ " failed! Attempting fix...") ;;
      response <- do_with_text w (getFixJsonPrompt (strip json_str) e)
                    AYA_EXP SYSTEM_PROMPT ;;
      match findall_json response with
      | [] =>
          let failure :=
            failure_message json_index file_name json_str
              "list index out of range" in
          print ("Retrying failed: " ++ failure) ;;
          ret (JNull, Some failure)
      | json_str' :: _ =>
          second <- loads w (strip json_str') ;;
          match second with
          | inr json_data =>
              print "Success, issue resolved." ;; ret (json_data, None)
          | inl e' =>
              let failure :=
                failure_message json_index file_name json_str' e' in
              print ("Retrying failed: " ++ failure) ;;
              ret (JNull, Some failure)
          end
      end
  end.

(** [if failure:] on [None] or a [str]. *)
Definition is_failure (failure : option string) : bool :=
  match failure with
  | Some msg => negb (String.eqb msg EmptyString)
  | None => false
  end.

(** The [str] that a true [failure] is. *)
Definition failure_text (failure : option string) : string :=
  match failure with
  | Some msg => msg
  | None => EmptyString
  end.

(** The loop of [extract_json_from_text] over one fenced region
    (lines 319-330); the accumulator is [(combined_list, failure_log)]. *)
Definition extract_block (w : World) (file_name : string)
    (acc : list json * list string) (item : nat * string)
  : M (list json * list string) :=
  loaded <- loadJsonWithReTry w file_name (fst item) (snd item) ;;
  if is_failure (snd loaded)
  then ret (fst acc, (snd acc ++ [failure_text (snd loaded)])%list)
  else ret ((fst acc ++ [fst loaded])%list, snd acc).

Definition extract_blocks (w : World) (file_name : string)
    (json_blocks : list string) : M (list json * list string) :=
  for_each (extract_block w file_name) (enumerate json_blocks) ([], []).

Definition extract_json_from_text (w : World)
    (input_file out_json_file error_log_file : string) : M unit :=
  content <- read_file input_file ;;
  lists <- extract_blocks w input_file (findall_json content) ;;
  dump_file w out_json_file (JArr (fst lists)) ;;
  match snd lists with
  | [] => ret tt
  | _ => write_lines w error_log_file (snd lists)
  end.

(** [dump_json_dic_to_json_file]: the [try] block opens the file and dumps
    to it; [except Exception as e] prints whatever the opening or the dump
    raised, and the call returns. *)
Definition dump_json_dic_to_json_file (w : World) (out_path : string)
    (json_dic : json) : M unit :=
  match open_error w out_path with
  | Some e =>
      print ("Error saving content to " ++ py_str w json_dic ++ ": " ++ e)
  | None =>
      if encodable json_dic then
        closes out_path (json_dumps_indent w json_dic) ;;
        print ("Content saved to " ++ out_path)
      else
        closes out_path (json_dump_cut w json_dic) ;;
        print ("Error saving content to " ++ py_str w json_dic ++ ": " ++
               json_dump_error w json_dic)
  end.

(** The class of a hashable value under [==] and [hash], as the [set]
    [names_read] tells members apart: [None], a number ([True] is [1] and
    [False] is [0]) or a [str]. *)
Inductive key : Type :=
| KNone
| KNum (z : Z)
| KStr (s : string).

Definition key_eqb (a b : key) : bool :=
  match a, b with
  | KNone, KNone => true
  | KNum x, KNum y => Z.eqb x y
  | KStr s, KStr t => String.eqb s t
  | _, _ => false
  end.

(** [hash(v)]: a list or a dict is unhashable. *)
Definition hash_key (v : json) : result key :=
  match v with
  | JNull => Ok KNone
  | JBool b => Ok (KNum (if b then 1 else 0))
  | JInt z => Ok (KNum z)
  | JStr s => Ok (KStr s)
  | JArr _ | JObj _ => Raise TypeError
  end.

Definition in_set (k : key) (names : list key) : bool :=
  existsb (key_eqb k) names.

(** Lines 171-174: the fields an entry gets when it lacks them. *)
Definition with_defaults (fields : list (string * json))
  : list (string * json) :=
  let fields1 :=
    if dict_has "gender" fields then fields
    else dict_set "gender" JNull fields in
  if dict_has "ischar" fields1 then fields1
  else dict_set "ischar" (JBool false) fields1.

(** The body of the inner loop of [create_glossary_json] (lines 170-176);
    the accumulator is [(names_read, processed_json_eles)]. *)
Definition merge_entry (acc : list key * list json) (ele : json)
  : result (list key * list json) :=
  match getitem ele "japanesename" with
  | Raise e => Raise e
  | Ok name =>
      match hash_key name with
      | Raise e => Raise e
      | Ok k =>
          if in_set k (fst acc) then Ok acc
          else
            match ele with
            | JObj fields =>
                Ok ((fst acc ++ [k])%list,
                    (snd acc ++ [JObj (with_defaults fields)])%list)
            | _ => Raise TypeError
            end
      end
  end.

Fixpoint merge_entries (eles : list json) (acc : list key * list json)
  : result (list key * list json) :=
  match eles with
  | [] => Ok acc
  | ele :: eles' =>
      match merge_entry acc ele with
      | Ok acc' => merge_entries eles' acc'
      | Raise e => Raise e
      end
  end.

(** The outer loop (lines 167-168), over the batches of the loaded file. *)
Fixpoint merge_batches (data : list json) (acc : list key * list json)
  : result (list key * list json) :=
  match data with
  | [] => Ok acc
  | ele_list :: data' =>
      match iterate ele_list with
      | Raise e => Raise e
      | Ok eles =>
          match merge_entries eles acc with
          | Ok acc' => merge_batches data' acc'
          | Raise e => Raise e
          end
      end
  end.

(** [processed_json_eles] for the loaded [data] (lines 159-176). *)
Definition glossary_merge (data : json) : result (list json) :=
  match iterate data with
  | Raise e => Raise e
  | Ok batches =>
      match merge_batches batches ([], []) with
      | Ok acc => Ok (snd acc)
      | Raise e => Raise e
      end
  end.

Definition create_glossary_json (w : World) (self : VnTranslator) : M unit :=
  extract_json_from_text w (raw_glossary_loc self) (glossary_loc self)
    "glossary_json_creation_error_logs.txt" ;;
  content <- read_file (glossary_loc self) ;;
  match json_loads w content with
  | inl e => lift (Raise (JSONDecodeError e))
  | inr data =>
      processed_json_eles <- lift (glossary_merge data) ;;
      dump_json_dic_to_json_file w (glossary_loc self)
        (JArr processed_json_eles)
  end.

Definition get_translate_with_glossary_prompt (w : World)
    (self : VnTranslator) (chunk translation_instruction : string) : string :=
  let glossary_to_include :=
    filter (fun entry => contains (fst entry) chunk) (loaded_glossary self) in
  get_instruction_prompt CHECK_GLOSSARY
    (json_dumps w (JObj glossary_to_include)) ++ LF ++
  get_instruction_prompt translation_instruction chunk.

(** [read_nss_json_content]: the elements the generator yields. *)
Definition read_nss_json_content (w : World) (file_path : string)
  : M (list json) :=
  content <- read_file file_path ;;
  match json_loads w content with
  | inl e => lift (Raise (JSONDecodeError e))
  | inr (JObj fields) =>
      lift (iterate (match dict_get "content" fields with
                     | Some v => v
                     | None => JArr []
                     end))
  | inr _ => lift (Raise AttributeError)
  end.

(** Lines 233-236: the parsed payload with three fields of the source
    element assigned onto it. *)
Definition splice (json_data element : json) : result json :=
  match getitem element "text label" with
  | Raise e => Raise e
  | Ok label =>
      match setitem json_data "text label" label with
      | Raise e => Raise e
      | Ok d1 =>
          match getitem element "voice tag" with
          | Raise e => Raise e
          | Ok voice =>
              match setitem d1 "voice tag" voice with
              | Raise e => Raise e
              | Ok d2 =>
                  match getitem element "Name" with
                  | Raise e => Raise e
                  | Ok name => setitem d2 "Name" name
                  end
              end
          end
      end
  end.

(** The body of the loop over the elements of one file (lines 209-236);
    the accumulator is [(collected_json, failure_log)]. *)
Definition translate_element (w : World) (self : VnTranslator)
    (file_name : string) (acc : list json * list string)
    (item : nat * json) : M (list json * list string) :=
  let element := snd item in
  if truthy element then
    texts <- lift (getitem element "text") ;;
    let str_json_ele := json_dumps_indent w (JObj [("text", texts)]) in
    response <- do_with_text w
                  (get_translate_with_glossary_prompt w self str_json_ele
                     VN_NSS_JSON_TRANSLATION_INSTRUCTION)
                  AYA_EXP SYSTEM_PROMPT ;;
    match findall_json response with
    | [] => ret acc
    | block :: _ =>
        loaded <- loadJsonWithReTry w file_name (fst item) block ;;
        if is_failure (snd loaded)
        then ret (fst acc, (snd acc ++ [failure_text (snd loaded)])%list)
        else
          json_data <- lift (splice (fst loaded) element) ;;
          ret ((fst acc ++ [json_data])%list, snd acc)
    end
  else ret acc.

(** The body of the loop over the files of a directory (lines 203-243);
    the accumulator is [failure_log]. *)
Definition translate_file (w : World) (self : VnTranslator) (root : string)
    (failure_log : list string) (file_name : string) : M (list string) :=
  let file_path := path_join w root file_name in
  print ("Processing file: " ++ file_path) ;;
  elements <- read_nss_json_content w file_path ;;
  lists <- for_each (translate_element w self file_name)
             (enumerate elements) ([], failure_log) ;;
  dump_json_dic_to_json_file w
    (path_join w (raw_translate_loc self) file_name)
    (JObj [("content", JArr (fst lists))]) ;;
  ret (snd lists).

(** [create_raw_translation_vn_nss_json]; the result is the local
    [failure_log] at the end of the run. *)
Definition create_raw_translation_vn_nss_json (w : World)
    (self : VnTranslator) : M (list string) :=
  for_each
    (fun failure_log dir =>
       for_each (translate_file w self (fst dir)) (snd dir) failure_log)
    (walk w (raw_loc self)) [].

End VnTranslator.

(** ** Well-grouped blocks

    The shape of a block in which every utterance is announced: an optional
    speaker line, then an optional voice line, then the line that opens the
    utterance (it holds the open-quote marker), then plain lines; label and
    empty lines may stand anywhere. *)
Module BlockGrammar.
Import Py NssExtractor.

(** The branch of [process_content]'s loop body that a line takes. *)
Inductive line_kind : Type :=
| Blank
| Label
| Opening
| Speaker
| Voice
| Plain.

Definition classify (line : string) : line_kind :=
  if String.eqb line EmptyString then Blank
  else if contains "[text" line then Label
  else if contains "「" line then Opening
  else if contains "【" line then Speaker
  else if contains "<voice" line then Voice
  else Plain.







End BlockGrammar.

(** ** A folder with one file that cannot be read *)
Module NssSamples.
Import Py NssExtractor.

(** The folder [in] holds the one file [a.nss]; chardet reports no
    encoding for it and reading it raises; every path can be written. *)
Definition unreadable_fs : FileSystem :=
  {| walk := fun _ => [("in", ["a.nss"])];
     path_join := fun a b => a ++ "/" ++ b;
     splitext := fun p =>
       match split_first "." p with
       | Some (stem, ext) => (stem, "." ++ ext)
       | None => (p, EmptyString)
       end;
     detect_encoding := fun _ => Some None;
     read_as := fun _ _ => None;
     dump_error := fun _ => None |}.

(** The record of a block that is the one character [c]. *)
Definition one_character_record (c : string) : json :=
  JObj [("text label", JNull); ("Name", JArr []); ("voice tag", JArr []);
        ("text", JArr [JStr c])].

End NssSamples.

(** ** A scripted world for the translator *)
Module VnSamples.
Import Py VnTranslator.

(** A compact serialiser, right on strings that need no escaping. *)
Fixpoint compact (v : json) : string :=
  match v with
  | JNull => "null"
  | JBool b => if b then "true" else "false"
  | JInt z => NilEmpty.string_of_int (Z.to_int z)
  | JStr s => DQ ++ s ++ DQ
  | JArr items => "[" ++ String.concat ", " (map compact items) ++ "]"
  | JObj fields =>
      "{" ++ String.concat ", "
               (map (fun kv => DQ ++ fst kv ++ DQ ++ ": " ++ compact (snd kv))
                  fields) ++ "}"
  end.

(** The reply [{"text": ["Hi"], "Name": ["Bob"]}] and its value. *)
Definition payload : json :=
  JObj [("text", JArr [JStr "Hi"]); ("Name", JArr [JStr "Bob"])].

Definition payload_text : string := compact payload.

(** [json.loads] on the texts the samples meet: three documents, and texts
    that start no JSON value (on which [json.loads] reports that it expects
    a value at the first character). *)
Definition sample_loads (s : string) : string + json :=
  if String.eqb s "[1]" then inr (JArr [JInt 1])
  else if String.eqb s "[3]" then inr (JArr [JInt 3])
  else if String.eqb s payload_text then inr payload
  else inl "Expecting value: line 1 column 1 (char 0)".

(** A world whose generation service gives [chat n] to the request number
    [n]; every path can be written.  A dump that cannot be encoded stops
    before anything is written, as it does for a list whose first item is
    the [str] that cannot be encoded. *)
Definition sample_world (chat : nat -> option string) : World :=
  {| json_loads := sample_loads;
     json_dumps := compact;
     json_dumps_indent := compact;
     json_dump_cut := fun _ => EmptyString;
     json_dump_error := fun _ => "surrogates not allowed";
     py_str := compact;
     ollama_chat := fun n _ _ _ => chat n;
     walk := fun _ => [("nss", ["a.json"])];
     path_join := fun a b => a ++ "/" ++ b;
     open_error := fun _ => None |}.

(** The service gives the replies of [script] in turn, then raises. *)
Definition scripted (script : list string) : World :=
  sample_world (nth_error script).

(** The service gives the same reply to every request. *)
Definition always (reply : string) : World :=
  sample_world (fun _ => Some reply).

Definition nothing_yet : state := {| files := []; output := [] |}.

Definition translator : VnTranslator :=
  {| raw_loc := "nss"; raw_glossary_loc := "raw_glossary.txt";
     glossary_loc := "glossary.json"; raw_translate_loc := "out";
     refined_translation_loc := "final.txt"; loaded_glossary := [];
     summary_file := "summary.txt" |}.

(** A source record with a label, one speaker, one voice tag, one text. *)
Definition source_record : json :=
  JObj [("text label", JStr "[text001]");
        ("Name", JArr [JStr "【ボブ】"]);
        ("voice tag", JArr [JStr "<voice name=bob>"]);
        ("text", JArr [JStr "「やあ」"])].

(** Three fenced regions, the second of which holds no JSON. *)
Definition three_regions : string :=
  "```json [1] ```" ++ LF ++ "```json oops ```" ++ LF ++ "```json [3] ```".

(** A reply that fences the payload. *)
Definition fenced_payload : string :=
  "```json" ++ LF ++ payload_text ++ LF ++ "```".

(** One batch with the name [太郎] twice. *)
Definition taro_twice : list json :=
  [JArr [JObj [("japanesename", JStr "太郎"); ("actualname", JStr "Taro")];
         JObj [("japanesename", JStr "太郎"); ("actualname", JStr "Tarou");
               ("gender", JStr "male")]]].

End VnSamples.

(** ** Vocabulary for the statements about the translator *)
Module VnTerms.
Import Py VnTranslator.

(** The state after the events [evs]. *)
Definition emits (evs : list event) (st : state) : state :=
  {| files := files st; output := (output st ++ evs)%list |}.

(** The events of a repair attempt up to the request. *)
Definition repair_request (file_name : string) (json_index : nat)
    (json_str e : string) : list event :=
  [Parsed (strip json_str);
   Printed ("JSON extraction for " ++ file_name ++ ", for element " ++
            str_of_nat json_index ++ " failed! Attempting fix...");
   Asked AYA_EXP SYSTEM_PROMPT (getFixJsonPrompt (strip json_str) e)].

(** The request that [translate_element] sends for the texts of a record. *)
Definition translation_request (w : World) (self : VnTranslator)
    (texts : json) : event :=
  Asked AYA_EXP SYSTEM_PROMPT
    (get_translate_with_glossary_prompt w self
       (json_dumps_indent w (JObj [("text", texts)]))
       VN_NSS_JSON_TRANSLATION_INSTRUCTION).

(** [enumerate] from a first index. *)
Definition enumerate_from {A : Type} (k : nat) (xs : list A)
  : list (nat * A) :=
  combine (seq k (List.length xs)) xs.

(** The generation service answers every request. *)
Definition answers (w : World) : Prop :=
  forall n model system_prompt prompt,
    ollama_chat w n model system_prompt prompt <> None.

(** [json.loads] accepts the text of the block as it stands. *)
Definition parses (w : World) (block : string) (v : json) : Prop :=
  json_loads w (strip block) = inr v.

(** The key under which [create_glossary_json] files an entry, when the
    entry has one. *)
Definition name_of (ele : json) : option key :=
  match getitem ele "japanesename" with
  | Ok name =>
      match hash_key name with
      | Ok k => Some k
      | Raise _ => None
      end
  | Raise _ => None
  end.

(** An entry with the fields it gets by default. *)
Definition completed (ele : json) : json :=
  match ele with
  | JObj fields => JObj (with_defaults fields)
  | _ => ele
  end.

(** The entries of all batches, in order. *)
Definition entries_of (batches : list json) : list json :=
  flat_map
    (fun batch => match iterate batch with Ok eles => eles | Raise _ => [] end)
    batches.

(** The invariant of the loop after the entries [seen]. *)
Definition first_kept (seen : list json) (acc : list key * list json) : Prop :=
  map name_of (snd acc) = map Some (fst acc) /\
  NoDup (fst acc) /\
  (forall ele, In ele seen -> exists k, name_of ele = Some k /\ In k (fst acc)) /\
  (forall o, In o (snd acc) ->
     exists before ele after,
       seen = (before ++ ele :: after)%list /\ o = completed ele /\
       forall ele', In ele' before -> name_of ele' <> name_of ele).

(** The values among results, and the failures among them, each in the
    order of the results. *)
Definition values_of (rs : list (json + string)) : list json :=
  flat_map (fun r => match r with inl v => [v] | inr _ => [] end) rs.

Definition failures_of (rs : list (json + string)) : list string :=
  flat_map (fun r => match r with inl _ => [] | inr failure => [failure] end)
    rs.

(** What the fenced region [snd item], found at the index [fst item], can
    come to: a value, parsed from the region as it stands or from the first
    fenced region of the reply to its repair request; or, the region not
    parsing, a failure message that names its index. *)
Definition result_of (w : World) (file_name : string) (item : nat * string)
    (r : json + string) : Prop :=
  match r with
  | inl v =>
      parses w (snd item) v \/
      exists n e reply body rest,
        json_loads w (strip (snd item)) = inl e /\
        ollama_chat w n AYA_EXP SYSTEM_PROMPT
          (getFixJsonPrompt (strip (snd item)) e) = Some reply /\
        findall_json (strip reply) = body :: rest /\
        parses w body v
  | inr failure =>
      exists e body e',
        json_loads w (strip (snd item)) = inl e /\
        failure = failure_message (fst item) file_name body e'
  end.

(** The reply to the repair request of the region [json_str] repairs
    nothing, and the failure message names [body] and [e']: the reply holds
    no fenced region, and these are the region itself and the text of the
    [IndexError]; or its first fenced region does not parse, and these are
    that region and the text of the parse error. *)
Definition fails_with (w : World) (json_str reply body e' : string) : Prop :=
  (findall_json (strip reply) = [] /\
   body = json_str /\ e' = "list index out of range") \/
  (exists rest,
     findall_json (strip reply) = body :: rest /\
     json_loads w (strip body) = inl e').

(** The results can be written: the output file opens and the values hold
    no lone surrogate; and, when there are failures, the error log opens and
    no failure holds a lone surrogate. *)
Definition writable (w : World) (out_json_file error_log_file : string)
    (values : list json) (failures : list string) : Prop :=
  open_error w out_json_file = None /\
  encodable (JArr values) = true /\
  (failures <> [] ->
   open_error w error_log_file = None /\
   forallb (fun failure => negb (lone_surrogate failure)) failures = true).

(** The run ended well, having written the values to the output file and,
    when there are failures, the failures to the error log. *)
Definition delivers (w : World) (out_json_file error_log_file : string)
    (values : list json) (failures : list string)
    (run : result unit * state) : Prop :=
  fst run = Ok tt /\
  In (Wrote out_json_file (json_dumps_indent w (JArr values)))
     (output (snd run)) /\
  (failures <> [] ->
   In (Wrote error_log_file (String.concat EmptyString failures))
      (output (snd run))).

End VnTerms.

(** ** Vocabulary for further statements about the parser and the scans *)
Module DialogueTerms.
Import Py NssExtractor BlockGrammar.

(** The lines that go into [text]: those that open an utterance and the
    plain ones. *)
Definition is_dialogue (line : string) : bool :=
  match classify line with
  | Opening | Plain => true
  | _ => false
  end.

Definition is_speaker (line : string) : bool :=
  match classify line with
  | Speaker => true
  | _ => false
  end.

Definition is_voice (line : string) : bool :=
  match classify line with
  | Voice => true
  | _ => false
  end.

Definition is_opening (line : string) : bool :=
  match classify line with
  | Opening => true
  | _ => false
  end.

(** The lines that are neither empty nor label lines. *)
Definition is_content (line : string) : bool :=
  match classify line with
  | Blank | Label => false
  | _ => true
  end.

(** The entries of a list that are not [None], in order. *)
Definition present (xs : list (option string)) : list string :=
  flat_map (fun x => match x with Some s => [s] | None => [] end) xs.

(** Two records with the same speakers, voice tags and texts. *)
Definition same_dialogue (a b : element) : Prop :=
  Name a = Name b /\ voice_tag a = voice_tag b /\ text a = text b.

(** The character [c] does not occur in [s]. *)
Fixpoint lacks (c : ascii) (s : string) : bool :=
  match s with
  | EmptyString => true
  | String x s' => negb (Ascii.eqb x c) && lacks c s'
  end.

End DialogueTerms.

(** ** [vn_translator_git.py]: chunking, the raw runs and the loading of the
    glossary *)
Module VnTranslatorRest.
Import Py VnTranslator.

Definition LLAMA_3_1 : string :=
  "llama3.1".

Definition LN_TRANSLATION_INSTRUCTIONS : string :=
  "
Make sure the translation is honest to original content in meaning and implication
Do not paraphrase!,
Output has to be in a single exact json format, like:,
```json
{
    " ++ DQ ++
  "original" ++ DQ ++
  ": " ++ DQ ++
  "Japanese text to be translated" ++ DQ ++
  ",
    " ++ DQ ++
  "translation" ++ DQ ++
  ": " ++ DQ ++
  "Your English text translation here (No other nested json, just direct string as value to the key!)" ++ DQ ++
  "
}
```
It should adhere to correct json format!
Now translate all of this into english with above rules in mind:
".

Definition NOUN_GLOSSARY_CREATION_INSTRUCTIONS : string :=
  "
Extract all the people's names, nick names and city/town/country/village names, 
then give it's pronounciation in english and the translated 
english name as output in exact json format like:
```json
[
    {
        " ++ DQ ++
  "japanesename" ++ DQ ++
  ": " ++ DQ ++
  "the original language name" ++ DQ ++
  ",
        " ++ DQ ++
  "englishphonetic" ++ DQ ++
  ": " ++ DQ ++
  "English phonetics for the name" ++ DQ ++
  ",
        " ++ DQ ++
  "actualname" ++ DQ ++
  ": " ++ DQ ++
  "English name for the corresponding japanesename" ++ DQ ++
  "
    },
    {
        " ++ DQ ++
  "japanesename" ++ DQ ++
  ": " ++ DQ ++
  "the original language name 1" ++ DQ ++
  ",
        " ++ DQ ++
  "englishphonetic" ++ DQ ++
  ": " ++ DQ ++
  "English phonetics for the name 1" ++ DQ ++
  ",
        " ++ DQ ++
  "actualname" ++ DQ ++
  ": " ++ DQ ++
  "English name for the corresponding japanesename" ++ DQ ++
  "
    },
...]
```
Do not add any other comments to the json!
".

(** The encoding that [tiktoken.get_encoding] gives: text to tokens and
    back. *)
Record Tokenizer : Type := {
  encode : string -> list nat;
  decode : list nat -> string
}.

(** [range(start, stop, step)] for a step that is not zero; each index
    moves on by at least one, so [fuel] of [stop] is never exhausted. *)
Fixpoint range_from (fuel start stop step : nat) : list nat :=
  match fuel with
  | O => []
  | S fuel' =>
      if Nat.ltb start stop
      then start :: range_from fuel' (start + step) stop step
      else []
  end.

(** The token lists that [get_chunks] decodes (lines 407-408):
    [tokens[i:i + tokens_per_chunk]] for [i] in
    [range(0, len(tokens), tokens_per_chunk)]; [None] is the [ValueError]
    that [range] raises for a step of zero. *)
Definition token_chunks (tokens_per_chunk : nat) (tokens : list nat)
  : option (list (list nat)) :=
  match tokens_per_chunk with
  | O => None
  | S _ =>
      Some (map (fun i => firstn tokens_per_chunk (skipn i tokens))
              (range_from (List.length tokens) 0 (List.length tokens)
                 tokens_per_chunk))
  end.

(** [get_chunks]: the chunks the generator yields, [None] for the
    [ValueError] of a zero [tokens_per_chunk]. *)
Definition get_chunks (tk : Tokenizer) (file_path : string)
    (tokens_per_chunk : nat) : M (option (list string)) :=
  text <- read_file file_path ;;
  ret (option_map (map (decode tk))
         (token_chunks tokens_per_chunk (encode tk text))).

(** [open(path, 'w', encoding='utf-8')]: the file is emptied. *)
Definition open_for_writing (w : World) (path : string) : M unit :=
  fun st =>
    match open_error w path with
    | Some e => (Raise (OSError e), st)
    | None =>
        (Ok tt, {| files := (path, EmptyString) :: files st;
                   output := output st |})
    end.

(** [out_file.write(content)] on a file opened for writing with
    [encoding='utf-8']: a text that cannot be encoded raises, and none of it
    is written. *)
Definition write_more (path content : string) : M unit :=
  fun st =>
    let before :=
      match lookup_file path (files st) with
      | Some old => old
      | None => EmptyString
      end in
    if lone_surrogate content then (Raise UnicodeEncodeError, st)
    else
      (Ok tt, {| files := (path, before ++ content) :: files st;
                 output := (output st ++ [Wrote path content])%list |}).

Definition chunks_or_none (chunks : option (list string)) : list string :=
  match chunks with
  | Some cs => cs
  | None => []
  end.

(** [create_raw_glossary]; the step of 400 is not zero, so [get_chunks]
    gives chunks. *)
Definition create_raw_glossary (w : World) (tk : Tokenizer)
    (self : VnTranslator) : M unit :=
  open_for_writing w (raw_glossary_loc self) ;;
  chunks <- get_chunks tk (summary_file self) 400 ;;
  for_each
    (fun _ chunk =>
       response <- do_with_text w
                     (get_instruction_prompt
                        NOUN_GLOSSARY_CREATION_INSTRUCTIONS chunk)
                     LLAMA_3_1 SYSTEM_PROMPT ;;
       write_more (raw_glossary_loc self) (response ++ LF ++ LF))
    (chunks_or_none chunks) tt ;;
  print ("Glossary creation complete, check " ++ raw_glossary_loc self).

(** [create_raw_translation_ln], with the step of 500 that [get_chunks]
    has by default. *)
Definition create_raw_translation_ln (w : World) (tk : Tokenizer)
    (self : VnTranslator) : M unit :=
  open_for_writing w (raw_translate_loc self) ;;
  chunks <- get_chunks tk (raw_loc self) 500 ;;
  for_each
    (fun _ chunk =>
       response <- do_with_text w
                     (get_translate_with_glossary_prompt w self chunk
                        LN_TRANSLATION_INSTRUCTIONS)
                     AYA_EXP SYSTEM_PROMPT ;;
       write_more (raw_translate_loc self) (response ++ LF ++ LF))
    (chunks_or_none chunks) tt ;;
  print ("Raw translation complete, check " ++ raw_translate_loc self).

(** [self.loaded_glossary] as [load_glossary] fills it: a dict whose keys
    are hashable values, in insertion order. *)
Fixpoint glossary_set (k : key) (v : json) (d : list (key * json))
  : list (key * json) :=
  match d with
  | [] => [(k, v)]
  | (k', v') :: d' =>
      if key_eqb k k' then (k', v) :: d' else (k', v') :: glossary_set k v d'
  end.

(** The assignment of lines 188-192: the value is built first (the
    ["actualname"], then the ["gender"] of the entry), then the key is
    read and hashed. *)
Definition load_entry (loaded : list (key * json)) (ele : json)
  : result (list (key * json)) :=
  match getitem ele "actualname" with
  | Raise e => Raise e
  | Ok actualname =>
      match getitem ele "gender" with
      | Raise e => Raise e
      | Ok gender =>
          match getitem ele "japanesename" with
          | Raise e => Raise e
          | Ok name =>
              match hash_key name with
              | Raise e => Raise e
              | Ok k =>
                  Ok (glossary_set k
                        (JObj [("actualname", actualname);
                               ("gender", gender)]) loaded)
              end
          end
      end
  end.

(** The loop of [load_glossary]: the dict at the end, and the exception
    that stopped the loop, if any (what was assigned before it stays). *)
Fixpoint load_entries (eles : list json) (loaded : list (key * json))
  : list (key * json) * option exn :=
  match eles with
  | [] => (loaded, None)
  | ele :: eles' =>
      match load_entry loaded ele with
      | Ok loaded' => load_entries eles' loaded'
      | Raise e => (loaded, Some e)
      end
  end.

(** [load_glossary] on a translator whose dict is [loaded]. *)
Definition load_glossary (w : World) (self : VnTranslator)
    (loaded : list (key * json)) (st : state)
  : list (key * json) * option exn :=
  match lookup_file (glossary_loc self) (files st) with
  | None => (loaded, Some (OSError (glossary_loc self)))
  | Some content =>
      match json_loads w content with
      | inl e => (loaded, Some (JSONDecodeError e))
      | inr data =>
          match iterate data with
          | Raise e => (loaded, Some e)
          | Ok eles => load_entries eles loaded
          end
      end
  end.

End VnTranslatorRest.

(** ** Vocabulary for the statements about the glossary *)
Module RestTerms.
Import Py VnTranslator VnTerms VnTranslatorRest.

(** The dict entry that [load_glossary] makes of a glossary entry that has
    a hashable name, an ["actualname"] and a ["gender"]. *)
Definition glossary_entry (ele : json) : option (key * json) :=
  match name_of ele, getitem ele "actualname", getitem ele "gender" with
  | Some k, Ok actualname, Ok gender =>
      Some (k, JObj [("actualname", actualname); ("gender", gender)])
  | _, _, _ => None
  end.


End RestTerms.

(** ** Vocabulary for the statements about the files of a run *)
Module FileTerms.
Import Py VnTranslator.

(** The files of [st'] are those of [st] and, before them, files whose
    paths are all [allowed]. *)
Definition grows_by (allowed : string -> Prop) (st st' : state) : Prop :=
  exists added,
    files st' = (added ++ files st)%list /\
    Forall (fun file => allowed (fst file)) added.

(** The path of the output file of [file_name], for a [file_name] that the
    walk of the input folder lists. *)
Definition is_output_path (w : World) (self : VnTranslator) (path : string)
  : Prop :=
  exists dir file_name,
    In dir (walk w (raw_loc self)) /\ In file_name (snd dir) /\
    path = path_join w (raw_translate_loc self) file_name.

End FileTerms.

(** ** Further sample worlds *)
Module MoreSamples.
Import Py NssExtractor VnTranslator VnSamples VnTranslatorRest.

(** The folder [in] holds [a.nss], plain text, and [b.nss], one [PRE]
    element; every path can be written. *)
Definition plain_fs : FileSystem :=
  {| NssExtractor.walk := fun _ => [("in", ["a.nss"; "b.nss"])];
     NssExtractor.path_join := fun a b => a ++ "/" ++ b;
     splitext := fun p =>
       match split_first "." p with
       | Some (stem, ext) => (stem, "." ++ ext)
       | None => (p, EmptyString)
       end;
     detect_encoding := fun _ => Some (Some "utf-8");
     read_as := fun p _ =>
       if String.eqb p "in/a.nss" then Some "no markup here"
       else Some ("<PRE>" ++ "「a」" ++ "</PRE>");
     dump_error := fun _ => None |}.

(** The world [w], but no path can be opened for writing. *)
Definition read_only (w : World) : World :=
  {| json_loads := json_loads w;
     json_dumps := json_dumps w;
     json_dumps_indent := json_dumps_indent w;
     json_dump_cut := json_dump_cut w;
     json_dump_error := json_dump_error w;
     py_str := py_str w;
     ollama_chat := ollama_chat w;
     walk := walk w;
     path_join := path_join w;
     open_error := fun _ => Some "Permission denied" |}.

(** The translator [self] with the glossary [glossary] loaded. *)
Definition with_glossary (self : VnTranslator)
    (glossary : list (string * json)) : VnTranslator :=
  {| raw_loc := raw_loc self;
     raw_glossary_loc := raw_glossary_loc self;
     glossary_loc := glossary_loc self;
     raw_translate_loc := raw_translate_loc self;
     refined_translation_loc := refined_translation_loc self;
     loaded_glossary := glossary;
     summary_file := summary_file self |}.

(** [json.loads] on the texts of [table], each with its value; any other
    text is taken to start no JSON value. *)
Definition loads_from (table : list (string * json)) (s : string)
  : string + json :=
  match find (fun kv => String.eqb (fst kv) s) table with
  | Some kv => inr (snd kv)
  | None => inl "Expecting value: line 1 column 1 (char 0)"
  end.

(** The world [w] with [json.loads] given by [table]. *)
Definition knowing (table : list (string * json)) (w : World) : World :=
  {| json_loads := loads_from table;
     json_dumps := json_dumps w;
     json_dumps_indent := json_dumps_indent w;
     json_dump_cut := json_dump_cut w;
     json_dump_error := json_dump_error w;
     py_str := py_str w;
     ollama_chat := ollama_chat w;
     walk := walk w;
     path_join := path_join w;
     open_error := open_error w |}.

(** The dialogue file of the one sample record, as text and as value. *)
Definition sample_file : json := JObj [("content", JArr [source_record])].

Definition sample_file_text : string := compact sample_file.


(** A tokenizer whose tokens are the bytes of the text. *)
Definition byte_tokens : Tokenizer :=
  {| encode := fun s => map nat_of_ascii (list_ascii_of_string s);
     decode := fun ts => string_of_list_ascii (map ascii_of_nat ts) |}.

(** The batch of [taro_twice], as the service writes it. *)
Definition taro_batch : json :=
  JArr [JObj [("japanesename", JStr "太郎"); ("actualname", JStr "Taro")];
        JObj [("japanesename", JStr "太郎"); ("actualname", JStr "Tarou");
              ("gender", JStr "male")]].

Definition taro_raw_glossary : string :=
  "```json" ++ LF ++ compact taro_batch ++ LF ++ "```" ++ LF ++ LF.

(** A world that reads the batch and the list of the one batch. *)
Definition glossary_world : World :=
  knowing [(compact taro_batch, taro_batch);
           (compact (JArr [taro_batch]), JArr [taro_batch])]
    (scripted []).

(** A state whose one file is [path]. *)
Definition holding (path content : string) : state :=
  {| files := [(path, content)]; output := [] |}.

(** The [str] that [json.loads] makes of the unpaired escape [\ud83d]: the
    lone surrogate U+D83D. *)
Definition lone_half : string :=
  String (byte 237) (String (byte 160) (String (byte 189) EmptyString)).

(** The JSON text of that [str], and a fenced region of it. *)
Definition half_text : string := DQ ++ "\ud83d" ++ DQ.

Definition half_region : string := "```json " ++ half_text ++ " ```".

(** A world whose [json.loads] knows that text; its service raises. *)
Definition half_world : World :=
  knowing [(half_text, JStr lone_half)] (scripted []).

End MoreSamples.

(** ** The scans of [re.findall] never run out of fuel *)
Module PyFacts.
Import Py.

Lemma startswith_length p : forall s,
  startswith p s = true -> String.length p <= String.length s.
Proof.
  induction p as [|a p IH]; intros s H; cbn; [lia|].
  destruct s as [|b s]; [discriminate|].
  cbn in H. apply andb_true_iff in H. destruct H as [_ H].
  apply IH in H. cbn. lia.
Qed.

Lemma drop_length n : forall s,
  String.length (drop n s) = String.length s - n.
Proof.
  induction n as [|n IH]; intros s; cbn; [lia|].
  destruct s as [|c s]; [reflexivity|]. cbn. apply IH.
Qed.

(** A match of [split_first] splits the text into the part before, the
    separator and the part after. *)
Lemma split_first_length sep s : forall before after,
  split_first sep s = Some (before, after) ->
  String.length s =
    String.length before + String.length sep + String.length after.
Proof.
  induction s as [|c s IH]; intros before after H.
  - cbn [split_first] in H.
    destruct (startswith sep EmptyString) eqn:E; [|discriminate].
    injection H as <- <-. apply startswith_length in E.
    rewrite drop_length. cbn [String.length] in *. lia.
  - cbn [split_first] in H.
    destruct (startswith sep (String c s)) eqn:E.
    + injection H as <- <-. apply startswith_length in E.
      rewrite drop_length. cbn [String.length] in *. lia.
    + destruct (split_first sep s) as [[b a]|]; [|discriminate].
      injection H as <- <-. specialize (IH b a eq_refl). cbn. lia.
Qed.

Lemma findall_json_fuel_stable n : forall m s,
  String.length s <= n -> String.length s <= m ->
  findall_json_fuel n s = findall_json_fuel m s.
Proof.
  induction n as [|n IH]; intros m s Hn Hm.
  - destruct s; [|cbn in Hn; lia]. now destruct m.
  - destruct m as [|m].
    + destruct s; [reflexivity | cbn in Hm; lia].
    + cbn [findall_json_fuel].
      destruct (split_first "```json" s) as [[b after]|] eqn:E1; [|reflexivity].
      destruct (split_first "```" after) as [[body rest]|] eqn:E2;
        [|reflexivity].
      apply split_first_length in E1, E2. cbn [String.length] in E1, E2.
      f_equal. apply IH; lia.
Qed.

(** More fuel than the length of the text changes nothing. *)
Lemma findall_json_fuel_enough n s :
  String.length s <= n -> findall_json_fuel n s = findall_json s.
Proof.
  intros H. unfold findall_json. now apply findall_json_fuel_stable.
Qed.

Lemma findall_pre_fuel_stable n : forall m s,
  String.length s <= n -> String.length s <= m ->
  findall_pre_fuel n s = findall_pre_fuel m s.
Proof.
  induction n as [|n IH]; intros m s Hn Hm.
  - destruct s; [|cbn in Hn; lia]. now destruct m.
  - destruct m as [|m].
    + destruct s; [reflexivity | cbn in Hm; lia].
    + cbn [findall_pre_fuel].
      destruct (split_first "<PRE" s) as [[b after]|] eqn:E1; [|reflexivity].
      destruct (split_first ">" after) as [[b' inside]|] eqn:E2;
        [|reflexivity].
      destruct (split_first "</PRE>" inside) as [[body rest]|] eqn:E3;
        [|reflexivity].
      apply split_first_length in E1, E2, E3.
      cbn [String.length] in E1, E2, E3.
      f_equal. apply IH; lia.
Qed.

Lemma findall_pre_fuel_enough n s :
  String.length s <= n -> findall_pre_fuel n s = findall_pre s.
Proof.
  intros H. unfold findall_pre. now apply findall_pre_fuel_stable.
Qed.

End PyFacts.

(** ** Properties of the dialogue-block parser and of the folder run *)
Module NssFacts.
Import Py NssExtractor BlockGrammar NssSamples.



Lemma extend_last_snoc ts t line :
  extend_last (ts ++ [t]) line = (ts ++ [(t ++ LF ++ line)%string])%list.
Proof.
  induction ts as [|t0 ts IH]; [reflexivity|].
  destruct ts as [|t1 ts'].
  - reflexivity.
  - change (extend_last ((t0 :: t1 :: ts') ++ [t]) line)
      with (t0 :: extend_last ((t1 :: ts') ++ [t]) line).
    rewrite IH. reflexivity.
Qed.






(** A file whose encoding detection or read raises yields the marker. *)
Lemma unreadable_file_yields_marker (fs : FileSystem) (file_path : string) :
  detect_encoding fs file_path = None \/
  (exists encoding, detect_encoding fs file_path = Some encoding /\
                    read_as fs file_path encoding = None) ->
  extract_pre_content fs file_path = PyStr ENCODING_ERROR.
Proof.
  unfold extract_pre_content. intros [D | [encoding [D R]]]; rewrite D.
  - reflexivity.
  - now rewrite R.
Qed.

(** Whatever the file system, a file that yields the marker is not skipped:
    when its output path can be written, the characters of the marker are
    dumped as sixteen records. *)
Lemma marker_is_dumped_as_records (fs : FileSystem)
    (out_path root file_name : string) :
  extract_pre_content fs (path_join fs root file_name) =
    PyStr ENCODING_ERROR ->
  dump_error fs
    (fst (splitext fs (path_join fs out_path file_name)) ++ ".json") = None ->
  process_file fs out_path root file_name =
    [Printed ("Processing file: " ++ path_join fs root file_name);
     Dumped (fst (splitext fs (path_join fs out_path file_name)) ++ ".json")
       (JObj [("content",
               JArr (map one_character_record
                       (codepoints ENCODING_ERROR)))]);
     Printed ("Content saved to " ++
              fst (splitext fs (path_join fs out_path file_name)) ++ ".json")].
Proof.
  intros E D. unfold process_file, save_content_to_json.
  rewrite E, D. reflexivity.
Qed.

(** C2: on a folder whose one file cannot be read the run does not skip the
    file: the marker is not printed, and the file [out/a.json] is written
    with sixteen records, one for each character of the marker. *)
Theorem unreadable_file_is_dumped_as_records :
  extract_pre_content unreadable_fs "in/a.nss" = PyStr ENCODING_ERROR /\
  process_folder unreadable_fs "in" "out" =
    [Printed "Processing file: in/a.nss";
     Dumped "out/a.json"
       (JObj [("content",
               JArr (map one_character_record
                       ["<"; "E"; "n"; "c"; "o"; "d"; "i"; "n"; "g"; " ";
                        "E"; "r"; "r"; "o"; "r"; ">"]))]);
     Printed "Content saved to out/a.json"].
Proof.
  split; reflexivity.
Qed.

(** C3 fails as stated: the text keeps the open-quote marker of its first
    line. *)
Lemma continuation_keeps_open_marker :
  map text (process_content ["「a" ++ LF ++ "b」"]) = [["「a" ++ LF ++ "b」"]] /\
  text (process_lines ["「a"; "b」"]) <> ["a" ++ LF ++ "b」"].
Proof.
  split; [reflexivity | vm_compute; discriminate].
Qed.

(** C3, as amended: the block of the lines [「a] and [b」] has the one text
    [「a\nb」], open-quote marker kept; and a line that takes no earlier
    branch, met when the last text holds no closing marker, is joined to
    that text by a line break and changes nothing else. *)
Theorem continuation_line_joins_last_utterance :
  text (process_lines ["「a"; "b」"]) = ["「a" ++ LF ++ "b」"] /\
  forall (ele : element) (ts : list string) (t line : string),
    text ele = (ts ++ [t])%list ->
    classify line = Plain ->
    contains "」" t = false ->
    process_line ele line =
      {| text_label := text_label ele; Name := Name ele;
         voice_tag := voice_tag ele;
         text := (ts ++ [(t ++ LF ++ line)%string])%list |}.
Proof.
  split; [reflexivity|].
  intros ele ts t line Et K C.
  unfold classify in K. unfold process_line.
  destruct (String.eqb line EmptyString); [discriminate|].
  destruct (contains "[text" line); [discriminate|].
  destruct (contains "「" line); [discriminate|].
  destruct (contains "【" line); [discriminate|].
  destruct (contains "<voice" line); [discriminate|].
  rewrite Et.
  destruct (ts ++ [t])%list as [|t0 ts0] eqn:E.
  { destruct ts; discriminate. }
  assert (L : last ts0 t0 = t).
  { assert (H : last (t0 :: ts0) t0 = t) by (rewrite <- E; apply last_last).
    destruct ts0; exact H. }
  rewrite L, C, <- E, extend_last_snoc. reflexivity.
Qed.

(** The line [b」] after the record of the line [「a]. *)
Lemma continuation_line_joins_last_utterance_witness :
  process_line (process_lines ["「a"]) "b」" =
    {| text_label := None; Name := [None]; voice_tag := [None];
       text := ["「a" ++ LF ++ "b」"] |}.
Proof.
  apply (proj2 continuation_line_joins_last_utterance
           (process_lines ["「a"]) [] "「a" "b」"); reflexivity.
Defined.

Lemma last_cons {A : Type} (l : list A) : forall x d : A,
  last (x :: l) d = last l x.
Proof.
  induction l as [|a l IH]; intros x d; [reflexivity|].
  change (last (x :: a :: l) d) with (last (a :: l) d).
  rewrite (IH a d), (IH a x). reflexivity.
Qed.

Lemma text_label_fold lines : forall ele,
  text_label (fold_left process_line lines ele) =
  last (map Some (filter (contains "[text") lines)) (text_label ele).
Proof.
  induction lines as [|line lines IH]; intros ele; [reflexivity|].
  cbn [fold_left filter]. rewrite IH. unfold process_line.
  destruct (String.eqb_spec line EmptyString) as [->|_]; [reflexivity|].
  destruct (contains "[text" line) eqn:C.
  - cbn [map text_label]. rewrite last_cons. reflexivity.
  - destruct (contains "「" line); [reflexivity|].
    destruct (contains "【" line); [reflexivity|].
    destruct (contains "<voice" line); [reflexivity|].
    destruct (text ele) as [|t ts]; [reflexivity|].
    destruct (contains "」" (last ts t)); reflexivity.
Qed.

(** C6 fails as stated: of two label lines the second is the label. *)
Lemma later_label_line_overwrites :
  text_label (process_lines ["[text1]"; "「a」"; "[text2]"]) = Some "[text2]" /\
  text_label (process_lines ["[text1]"; "「a」"; "[text2]"]) <> Some "[text1]".
Proof.
  split; [reflexivity | vm_compute; discriminate].
Qed.

(** C6, as amended: the label of a record is the last line of the block that
    holds the label marker ([None] when there is none): every label line
    overwrites the one before. *)
Theorem label_is_last_label_line (lines : list string) :
  text_label (process_lines lines) =
  last (map Some (filter (contains "[text") lines)) None.
Proof.
  unfold process_lines. rewrite text_label_fold. reflexivity.
Qed.

(** C9: the block of a speaker line and two quoted lines. *)
Theorem scenario_speaker_then_two_utterances :
  process_content ["【Name】" ++ LF ++ "「Hello」" ++ LF ++ "「world」"] =
    [{| text_label := None;
        Name := [Some "【Name】"; None];
        voice_tag := [None; None];
        text := ["「Hello」"; "「world」"] |}].
Proof.
  reflexivity.
Qed.

End NssFacts.

(** ** Properties of the recovery loop, the extractor, the glossary merge
    and the pipeline driver *)
Module VnFacts.
Import Py VnTranslator VnSamples VnTerms MoreSamples.

Lemma failure_message_is_failure json_index file_name json_str e :
  is_failure (Some (failure_message json_index file_name json_str e)) = true.
Proof. reflexivity. Qed.

#[local] Opaque AYA_EXP SYSTEM_PROMPT CHECK_GLOSSARY
  VN_NSS_JSON_TRANSLATION_INSTRUCTION FIX_JSON_PROMPT_TEMPLATE failure_message
  strip findall_json str_of_nat.

Lemma requests_app xs ys : requests (xs ++ ys) = requests xs + requests ys.
Proof. unfold requests. rewrite filter_app, length_app. reflexivity. Qed.

Lemma parse_attempts_app xs ys :
  parse_attempts (xs ++ ys) = parse_attempts xs + parse_attempts ys.
Proof. unfold parse_attempts. rewrite filter_app, length_app. reflexivity. Qed.

Lemma emits_emits evs evs' st :
  emits evs' (emits evs st) = emits (evs ++ evs') st.
Proof. unfold emits. cbn. rewrite app_assoc. reflexivity. Qed.

Lemma emit_one e st : emit e st = emits [e] st.
Proof. reflexivity. Qed.

(** [loadJsonWithReTry], case by case. *)
Lemma loadJsonWithReTry_cases (w : World) (file_name : string)
    (json_index : nat) (json_str : string) (st : state) :
  loadJsonWithReTry w file_name json_index json_str st =
  match json_loads w (strip json_str) with
  | inr v => (Ok (v, None), emits [Parsed (strip json_str)] st)
  | inl e =>
      let asked := repair_request file_name json_index json_str e in
      match ollama_chat w (requests (output st)) AYA_EXP SYSTEM_PROMPT
              (getFixJsonPrompt (strip json_str) e) with
      | None => (Raise (OSError "ollama"), emits asked st)
      | Some reply =>
          match findall_json (strip reply) with
          | [] =>
              let failure :=
                failure_message json_index file_name json_str
                  "list index out of range" in
              (Ok (JNull, Some failure),
               emits (asked ++ [Printed ("Retrying failed: " ++ failure)]) st)
          | body :: _ =>
              match json_loads w (strip body) with
              | inr v =>
                  (Ok (v, None),
                   emits (asked ++ [Parsed (strip body);
                                    Printed "Success, issue resolved."]) st)
              | inl e' =>
                  let failure :=
                    failure_message json_index file_name body e' in
                  (Ok (JNull, Some failure),
                   emits (asked ++ [Parsed (strip body);
                                    Printed ("Retrying failed: " ++ failure)])
                     st)
              end
          end
      end
  end.
Proof.
  unfold loadJsonWithReTry, bind, loads, print, do_with_text, ret.
  destruct (json_loads w (strip json_str)) as [e|v]; [|reflexivity].
  rewrite !emit_one, !emits_emits.
  change (requests (output (emits ?evs st)))
    with (requests (output st ++ evs)).
  rewrite requests_app. cbn [requests filter is_asked List.length app].
  rewrite Nat.add_0_r.
  destruct (ollama_chat _ _ _ _ _) as [reply|]; [|reflexivity].
  destruct (findall_json (strip reply)) as [|body rest].
  - rewrite !emit_one, !emits_emits. reflexivity.
  - destruct (json_loads w (strip body));
      rewrite !emit_one, !emits_emits; reflexivity.
Qed.

(** C4: a call of [loadJsonWithReTry] sends at most one request to the
    generation service and parses at most twice; when the first parse fails
    it sends exactly one; and when the reply holds a fenced region that fails
    to parse too, the failure is returned after two parse attempts and that
    one request. *)
Theorem loadJsonWithReTry_repairs_once (w : World) (file_name : string)
    (json_index : nat) (json_str : string) (st : state) :
  exists new : list event,
    output (snd (loadJsonWithReTry w file_name json_index json_str st)) =
      (output st ++ new)%list /\
    requests new <= 1 /\ parse_attempts new <= 2 /\
    (forall e, json_loads w (strip json_str) = inl e -> requests new = 1) /\
    (forall e reply body rest e',
        json_loads w (strip json_str) = inl e ->
        ollama_chat w (requests (output st)) AYA_EXP SYSTEM_PROMPT
          (getFixJsonPrompt (strip json_str) e) = Some reply ->
        findall_json (strip reply) = body :: rest ->
        json_loads w (strip body) = inl e' ->
        fst (loadJsonWithReTry w file_name json_index json_str st) =
          Ok (JNull, Some (failure_message json_index file_name body e')) /\
        requests new = 1 /\ parse_attempts new = 2).
Proof.
  rewrite loadJsonWithReTry_cases.
  destruct (json_loads w (strip json_str)) as [e|v] eqn:E1.
  2: { eexists. split; [reflexivity|]. cbn.
       repeat split; try lia; intros; discriminate. }
  cbv zeta.
  destruct (ollama_chat _ _ _ _ _) as [reply|] eqn:E2.
  2: { eexists. split; [reflexivity|]. cbn.
       repeat split; try lia; intros; congruence. }
  destruct (findall_json (strip reply)) as [|body rest] eqn:E3.
  { eexists. split; [reflexivity|]. cbn.
    repeat split; try lia; intros; congruence. }
  destruct (json_loads w (strip body)) as [e'|v'] eqn:E4.
  - eexists. split; [reflexivity|]. cbn.
    repeat split; try lia; intros; congruence.
  - eexists. split; [reflexivity|]. cbn.
    repeat split; try lia; intros; congruence.
Qed.

Lemma dict_get_set_same k v d : dict_get k (dict_set k v d) = Some v.
Proof.
  induction d as [|[k' v'] d IH]; cbn.
  - now rewrite String.eqb_refl.
  - destruct (String.eqb k k') eqn:E; cbn; rewrite E; auto.
Qed.

Lemma dict_get_set_other k k' v d :
  k <> k' -> dict_get k (dict_set k' v d) = dict_get k d.
Proof.
  intros N. apply String.eqb_neq in N.
  induction d as [|[k0 v0] d IH]; cbn.
  - now rewrite N.
  - destruct (String.eqb k' k0) eqn:E; cbn.
    + apply String.eqb_eq in E. subst k0. now rewrite N.
    + now rewrite IH.
Qed.

(** [translate_element] on a record that is sent for translation and
    answered. *)
Lemma translate_element_answered (w : World) (self : VnTranslator)
    (file_name : string) (acc : list json * list string) (index : nat)
    (element texts : json) (st : state) (reply : string) :
  truthy element = true ->
  getitem element "text" = Ok texts ->
  ollama_chat w (requests (output st)) AYA_EXP SYSTEM_PROMPT
    (get_translate_with_glossary_prompt w self
       (json_dumps_indent w (JObj [("text", texts)]))
       VN_NSS_JSON_TRANSLATION_INSTRUCTION) = Some reply ->
  translate_element w self file_name acc (index, element) st =
  match findall_json (strip reply) with
  | [] => (Ok acc, emit (translation_request w self texts) st)
  | block :: _ =>
      match loadJsonWithReTry w file_name index block
              (emit (translation_request w self texts) st) with
      | (Ok loaded, st') =>
          if is_failure (snd loaded)
          then (Ok (fst acc, (snd acc ++ [failure_text (snd loaded)])%list),
                st')
          else
            match splice (fst loaded) element with
            | Ok json_data => (Ok ((fst acc ++ [json_data])%list, snd acc), st')
            | Raise e => (Raise e, st')
            end
      | (Raise e, st') => (Raise e, st')
      end
  end.
Proof.
  intros T G C. unfold translate_element. cbn [fst snd]. rewrite T.
  unfold bind at 1. unfold lift at 1. rewrite G.
  unfold bind at 1. unfold do_with_text. rewrite C.
  destruct (findall_json (strip reply)) as [|block rest]; [reflexivity|].
  unfold bind at 1. unfold translation_request.
  destruct (loadJsonWithReTry _ _ _ _ _) as [[loaded|e] st']; [|reflexivity].
  destruct (is_failure (snd loaded)); [reflexivity|].
  unfold bind, lift, ret.
  destruct (splice (fst loaded) element); reflexivity.
Qed.

(** C10: a record whose translation holds no fenced region leaves the
    collected records and the failure log as they were, and prints nothing:
    the request is the only event. *)
Theorem record_without_fenced_region_is_dropped (w : World)
    (self : VnTranslator) (file_name : string)
    (acc : list json * list string) (index : nat) (element texts : json)
    (st : state) (reply : string) :
  truthy element = true ->
  getitem element "text" = Ok texts ->
  ollama_chat w (requests (output st)) AYA_EXP SYSTEM_PROMPT
    (get_translate_with_glossary_prompt w self
       (json_dumps_indent w (JObj [("text", texts)]))
       VN_NSS_JSON_TRANSLATION_INSTRUCTION) = Some reply ->
  findall_json (strip reply) = [] ->
  translate_element w self file_name acc (index, element) st =
    (Ok acc,
     emit (Asked AYA_EXP SYSTEM_PROMPT
             (get_translate_with_glossary_prompt w self
                (json_dumps_indent w (JObj [("text", texts)]))
                VN_NSS_JSON_TRANSLATION_INSTRUCTION)) st).
Proof.
  intros T G C F.
  rewrite (translate_element_answered w self file_name acc index element
             texts st reply T G C), F.
  reflexivity.
Qed.

Lemma splice_object fields element label voice name :
  getitem element "text label" = Ok label ->
  getitem element "voice tag" = Ok voice ->
  getitem element "Name" = Ok name ->
  splice (JObj fields) element =
    Ok (JObj (dict_set "Name" name
                (dict_set "voice tag" voice
                   (dict_set "text label" label fields)))).
Proof.
  intros L V N. unfold splice. rewrite L. cbn [setitem]. rewrite V.
  cbn [setitem]. rewrite N. reflexivity.
Qed.

(** C5, as amended: when the reply of a record is parsed or recovered as an
    object, the record appended to the output is that object with
    ["text label"], ["voice tag"] and ["Name"] assigned from the source
    record; every other field, the translated ["text"] among them, is the
    payload's. *)
Theorem translated_record_takes_label_voice_and_name_from_source
    (w : World) (self : VnTranslator) (file_name : string)
    (acc : list json * list string) (index : nat)
    (element texts label voice name : json) (st st' : state)
    (reply block : string) (rest : list string)
    (fields : list (string * json)) :
  truthy element = true ->
  getitem element "text" = Ok texts ->
  ollama_chat w (requests (output st)) AYA_EXP SYSTEM_PROMPT
    (get_translate_with_glossary_prompt w self
       (json_dumps_indent w (JObj [("text", texts)]))
       VN_NSS_JSON_TRANSLATION_INSTRUCTION) = Some reply ->
  findall_json (strip reply) = block :: rest ->
  loadJsonWithReTry w file_name index block
    (emit (Asked AYA_EXP SYSTEM_PROMPT
             (get_translate_with_glossary_prompt w self
                (json_dumps_indent w (JObj [("text", texts)]))
                VN_NSS_JSON_TRANSLATION_INSTRUCTION)) st) =
    (Ok (JObj fields, None), st') ->
  getitem element "text label" = Ok label ->
  getitem element "voice tag" = Ok voice ->
  getitem element "Name" = Ok name ->
  exists out : list (string * json),
    translate_element w self file_name acc (index, element) st =
      (Ok ((fst acc ++ [JObj out])%list, snd acc), st') /\
    dict_get "text label" out = Some label /\
    dict_get "voice tag" out = Some voice /\
    dict_get "Name" out = Some name /\
    forall k : string,
      k <> "text label" -> k <> "voice tag" -> k <> "Name" ->
      dict_get k out = dict_get k fields.
Proof.
  intros T G C F L HL HV HN.
  rewrite (translate_element_answered w self file_name acc index element
             texts st reply T G C), F.
  unfold translation_request. rewrite L. cbn [fst snd is_failure].
  rewrite (splice_object fields element label voice name HL HV HN).
  eexists. split; [reflexivity|].
  repeat split.
  - rewrite dict_get_set_other, dict_get_set_other, dict_get_set_same;
      [reflexivity | discriminate | discriminate].
  - rewrite dict_get_set_other, dict_get_set_same;
      [reflexivity | discriminate].
  - apply dict_get_set_same.
  - intros k N1 N2 N3. now rewrite !dict_get_set_other.
Qed.

Lemma enumerate_from_app {A : Type} (xs ys : list A) : forall k,
  enumerate_from k (xs ++ ys) =
  (enumerate_from k xs ++ enumerate_from (k + List.length xs) ys)%list.
Proof.
  induction xs as [|x xs IH]; intros k.
  - cbn. now rewrite Nat.add_0_r.
  - unfold enumerate_from in *. cbn. f_equal.
    rewrite IH. now rewrite Nat.add_succ_r.
Qed.

Lemma for_each_app {A B : Type} (body : B -> A -> M B) (xs ys : list A) :
  forall acc st,
    for_each body (xs ++ ys) acc st =
    match for_each body xs acc st with
    | (Ok acc', st') => for_each body ys acc' st'
    | (Raise e, st') => (Raise e, st')
    end.
Proof.
  induction xs as [|x xs IH]; intros acc st; [reflexivity|].
  cbn. unfold bind.
  destruct (body acc x st) as [[acc'|e] st']; [apply IH | reflexivity].
Qed.

Lemma extract_block_parsed w file_name acc k block v st :
  parses w block v ->
  extract_block w file_name acc (k, block) st =
    (Ok ((fst acc ++ [v])%list, snd acc), emits [Parsed (strip block)] st).
Proof.
  intros P. unfold extract_block, bind. cbn [fst snd].
  rewrite loadJsonWithReTry_cases, P. reflexivity.
Qed.

Lemma extract_blocks_parsed w file_name blocks vs :
  Forall2 (parses w) blocks vs ->
  forall k acc st,
    for_each (extract_block w file_name) (enumerate_from k blocks) acc st =
      (Ok ((fst acc ++ vs)%list, snd acc),
       emits (map (fun b => Parsed (strip b)) blocks) st).
Proof.
  induction 1 as [|b v bs vs P _ IH]; intros k acc st.
  - cbn. unfold ret, emits. rewrite !app_nil_r. now destruct acc, st.
  - change (enumerate_from k (b :: bs))
      with ((k, b) :: enumerate_from (S k) bs).
    cbn [for_each]. unfold bind.
    rewrite (extract_block_parsed w file_name acc k b v st P), IH.
    cbn [fst snd]. rewrite emits_emits, <- app_assoc. reflexivity.
Qed.

Lemma requests_parsed blocks :
  requests (map (fun b => Parsed (strip b)) blocks) = 0.
Proof. induction blocks; [reflexivity | assumption]. Qed.

Lemma extract_block_result w file_name acc item st :
  answers w ->
  exists r st',
    extract_block w file_name acc item st =
      (Ok ((fst acc ++ values_of [r])%list,
           (snd acc ++ failures_of [r])%list), st') /\
    result_of w file_name item r /\
    files st' = files st.
Proof.
  intros A. unfold extract_block, bind.
  rewrite loadJsonWithReTry_cases.
  destruct (json_loads w (strip (snd item))) as [e|v] eqn:E1.
  2: { exists (inl v). eexists. cbn [fst snd is_failure values_of failures_of
                                     flat_map app].
       rewrite app_nil_r. split; [reflexivity|]. split; [now left | reflexivity]. }
  cbv zeta.
  destruct (ollama_chat _ _ _ _ _) as [reply|] eqn:E; [|now apply A in E].
  destruct (findall_json (strip reply)) as [|body rest] eqn:F.
  { cbn [fst snd]. rewrite failure_message_is_failure.
    eexists (inr _). eexists.
    cbn [fst snd values_of failures_of flat_map app failure_text].
    rewrite app_nil_r. split; [reflexivity|]. split; [|reflexivity].
    exists e. do 2 eexists. split; [exact E1 | reflexivity]. }
  destruct (json_loads w (strip body)) as [e'|v'] eqn:E2.
  - cbn [fst snd]. rewrite failure_message_is_failure.
    eexists (inr _). eexists.
    cbn [fst snd values_of failures_of flat_map app failure_text].
    rewrite app_nil_r. split; [reflexivity|]. split; [|reflexivity].
    exists e. do 2 eexists. split; [exact E1 | reflexivity].
  - exists (inl v'). eexists.
    cbn [fst snd is_failure values_of failures_of flat_map app].
    rewrite app_nil_r. split; [reflexivity|]. split; [|reflexivity].
    right. exists (requests (output st)), e, reply, body, rest.
    repeat split; assumption.
Qed.

Lemma values_of_cons r rs : values_of (r :: rs) = (values_of [r] ++ values_of rs)%list.
Proof. unfold values_of. cbn [flat_map]. now rewrite app_nil_r. Qed.

Lemma failures_of_cons r rs :
  failures_of (r :: rs) = (failures_of [r] ++ failures_of rs)%list.
Proof. unfold failures_of. cbn [flat_map]. now rewrite app_nil_r. Qed.

(** With a service that answers, the loop of [extract_json_from_text] comes
    to one result for each region, in order. *)
Lemma extract_blocks_results w file_name blocks :
  answers w ->
  forall k acc st,
  exists rs st',
    for_each (extract_block w file_name) (enumerate_from k blocks) acc st =
      (Ok ((fst acc ++ values_of rs)%list,
           (snd acc ++ failures_of rs)%list), st') /\
    Forall2 (result_of w file_name) (enumerate_from k blocks) rs /\
    files st' = files st.
Proof.
  intros A. induction blocks as [|b blocks IH]; intros k acc st.
  - exists [], st. cbn. unfold ret. rewrite !app_nil_r.
    split; [now destruct acc|]. split; [constructor | reflexivity].
  - change (enumerate_from k (b :: blocks))
      with ((k, b) :: enumerate_from (S k) blocks).
    destruct (extract_block_result w file_name acc (k, b) st A)
      as [r [st1 [E1 [R1 F1]]]].
    destruct (IH (S k) ((fst acc ++ values_of [r])%list,
                        (snd acc ++ failures_of [r])%list) st1)
      as [rs [st2 [E2 [R2 F2]]]].
    exists (r :: rs), st2. cbn [for_each]. unfold bind. rewrite E1, E2.
    cbn [fst snd]. rewrite <- !app_assoc, <- values_of_cons, <- failures_of_cons.
    split; [reflexivity|]. split; [now constructor | congruence].
Qed.

(** The regions before and after one region parse as they stand, and that
    region neither parses nor is repaired: the loop comes to the values of
    the others and to the one failure. *)
Lemma extract_blocks_one_failure (w : World) (file_name : string)
    (st : state) (pre post : list string) (bad : string)
    (vs_pre vs_post : list json) (e reply body e' : string) :
  Forall2 (parses w) pre vs_pre ->
  Forall2 (parses w) post vs_post ->
  json_loads w (strip bad) = inl e ->
  ollama_chat w (requests (output st)) AYA_EXP SYSTEM_PROMPT
    (getFixJsonPrompt (strip bad) e) = Some reply ->
  fails_with w bad reply body e' ->
  exists st',
    extract_blocks w file_name (pre ++ bad :: post) st =
      (Ok ((vs_pre ++ vs_post)%list,
           [failure_message (List.length pre) file_name body e']), st').
Proof.
  intros Ppre Ppost E C R.
  unfold extract_blocks.
  change (enumerate (pre ++ bad :: post))
    with (enumerate_from 0 (pre ++ bad :: post)).
  rewrite enumerate_from_app, for_each_app.
  rewrite (extract_blocks_parsed w file_name pre vs_pre Ppre).
  cbn [fst snd app Nat.add].
  change (enumerate_from (List.length pre) (bad :: post))
    with ((List.length pre, bad) :: enumerate_from (S (List.length pre)) post).
  cbn [for_each]. unfold bind at 1. unfold extract_block at 1.
  unfold bind at 1. cbn [fst snd].
  rewrite loadJsonWithReTry_cases, E. cbv zeta.
  change (requests (output (emits ?evs st)))
    with (requests (output st ++ evs)).
  rewrite requests_app, requests_parsed, Nat.add_0_r, C.
  destruct R as [[F [-> ->]] | [rest [F E']]]; rewrite F.
  + cbn [fst snd]. rewrite failure_message_is_failure. unfold ret.
    rewrite (extract_blocks_parsed w file_name post vs_post Ppost).
    cbn [fst snd failure_text app]. eexists. reflexivity.
  + rewrite E'. cbn [fst snd]. rewrite failure_message_is_failure. unfold ret.
    rewrite (extract_blocks_parsed w file_name post vs_post Ppost).
    cbn [fst snd failure_text app]. eexists. reflexivity.
Qed.

(** A region does not parse and the service raises on its repair request:
    the loop raises there, whatever comes after, and writes nothing. *)
Lemma extract_blocks_service_down (w : World) (file_name : string)
    (st : state) (pre post : list string) (bad : string)
    (vs_pre : list json) (e : string) :
  Forall2 (parses w) pre vs_pre ->
  json_loads w (strip bad) = inl e ->
  ollama_chat w (requests (output st)) AYA_EXP SYSTEM_PROMPT
    (getFixJsonPrompt (strip bad) e) = None ->
  exists st',
    extract_blocks w file_name (pre ++ bad :: post) st =
      (Raise (OSError "ollama"), st') /\
    files st' = files st.
Proof.
  intros Ppre E C.
  unfold extract_blocks.
  change (enumerate (pre ++ bad :: post))
    with (enumerate_from 0 (pre ++ bad :: post)).
  rewrite enumerate_from_app, for_each_app.
  rewrite (extract_blocks_parsed w file_name pre vs_pre Ppre).
  cbn [fst snd app Nat.add].
  change (enumerate_from (List.length pre) (bad :: post))
    with ((List.length pre, bad) :: enumerate_from (S (List.length pre)) post).
  cbn [for_each]. unfold bind at 1. unfold extract_block at 1.
  unfold bind at 1. cbn [fst snd].
  rewrite loadJsonWithReTry_cases, E. cbv zeta.
  change (requests (output (emits ?evs st)))
    with (requests (output st ++ evs)).
  rewrite requests_app, requests_parsed, Nat.add_0_r, C.
  eexists. split; reflexivity.
Qed.

Lemma lines_through_clean lines :
  forallb (fun line => negb (lone_surrogate line)) lines = true ->
  lines_through lines = String.concat EmptyString lines.
Proof.
  induction lines as [|l lines IH]; [reflexivity|].
  cbn [forallb lines_through]. intros H.
  apply andb_prop in H as [H1 H2]. apply negb_true_iff in H1. rewrite H1.
  rewrite (IH H2). destruct lines as [|l' lines']; [|reflexivity].
  cbn [String.concat]. clear.
  induction l as [|c l IHl]; [reflexivity | cbn [append]; now rewrite IHl].
Qed.

(** What [extract_json_from_text] does with the results of its loop, when
    they can be written. *)
Lemma extract_json_from_text_delivers (w : World)
    (input_file out_json_file error_log_file content : string)
    (st st1 : state) (values : list json) (failures : list string) :
  lookup_file input_file (files st) = Some content ->
  extract_blocks w input_file (findall_json content) st =
    (Ok (values, failures), st1) ->
  writable w out_json_file error_log_file values failures ->
  delivers w out_json_file error_log_file values failures
    (extract_json_from_text w input_file out_json_file error_log_file st).
Proof.
  intros R E [O1 [C1 W2]]. unfold delivers.
  unfold extract_json_from_text, bind, read_file.
  rewrite R, E. cbn [fst snd]. unfold dump_file. rewrite O1, C1.
  unfold closes at 1.
  destruct failures as [|f fs].
  - unfold ret. cbn [fst snd output]. split; [reflexivity|]. split.
    + apply in_or_app. right. now left.
    + intros N. now elim N.
  - destruct W2 as [O2 C2]; [discriminate|].
    unfold write_lines. rewrite O2. unfold bind, closes. rewrite C2.
    rewrite (lines_through_clean _ C2). unfold ret. cbn [fst snd output].
    split; [reflexivity|]. split.
    + apply in_or_app. left. apply in_or_app. right. now left.
    + intros _. apply in_or_app. right. now left.
Qed.

(** C7: the regions of the input text are those that the scan gives, in the
    order of their appearance.  When the generation service answers, the
    loop comes to one result for each region, in order: a value (parsed as
    it stands or from the repair reply) or a failure message that names the
    index of the region; and when these results can be written, the values,
    in order, go to the output file and the failures, in order, to the error
    log.  When the regions before and after one region parse as they stand
    and that region neither parses nor is repaired, the output file gets the
    values of the others in order, and the error log the one failure, under
    the index of that region.  But when a region does not parse and the
    service raises on its repair request, the extraction raises and writes
    nothing, whatever the regions after it hold. *)
Theorem extraction_gives_one_result_per_region (w : World)
    (input_file out_json_file error_log_file content : string) (st : state) :
  lookup_file input_file (files st) = Some content ->
  (answers w ->
   exists rs st1,
     Forall2 (result_of w input_file) (enumerate (findall_json content)) rs /\
     extract_blocks w input_file (findall_json content) st =
       (Ok (values_of rs, failures_of rs), st1) /\
     (writable w out_json_file error_log_file
        (values_of rs) (failures_of rs) ->
      delivers w out_json_file error_log_file (values_of rs) (failures_of rs)
        (extract_json_from_text w input_file out_json_file error_log_file
           st))) /\
  (forall (pre post : list string) (bad : string)
          (vs_pre vs_post : list json) (e reply body e' : string),
      findall_json content = (pre ++ bad :: post)%list ->
      Forall2 (parses w) pre vs_pre ->
      Forall2 (parses w) post vs_post ->
      json_loads w (strip bad) = inl e ->
      ollama_chat w (requests (output st)) AYA_EXP SYSTEM_PROMPT
        (getFixJsonPrompt (strip bad) e) = Some reply ->
      fails_with w bad reply body e' ->
      writable w out_json_file error_log_file (vs_pre ++ vs_post)
        [failure_message (List.length pre) input_file body e'] ->
      delivers w out_json_file error_log_file (vs_pre ++ vs_post)
        [failure_message (List.length pre) input_file body e']
        (extract_json_from_text w input_file out_json_file error_log_file
           st)) /\
  (forall (pre post : list string) (bad : string) (vs_pre : list json)
          (e : string),
      findall_json content = (pre ++ bad :: post)%list ->
      Forall2 (parses w) pre vs_pre ->
      json_loads w (strip bad) = inl e ->
      ollama_chat w (requests (output st)) AYA_EXP SYSTEM_PROMPT
        (getFixJsonPrompt (strip bad) e) = None ->
      fst (extract_json_from_text w input_file out_json_file error_log_file
             st) = Raise (OSError "ollama") /\
      files (snd (extract_json_from_text w input_file out_json_file
                    error_log_file st)) = files st).
Proof.
  intros L. split; [|split].
  - intros A.
    destruct (extract_blocks_results w input_file (findall_json content) A
                0 ([], []) st) as [rs [st1 [E [R _]]]].
    exists rs, st1. split; [exact R|]. split; [exact E|]. intros W.
    apply (extract_json_from_text_delivers w input_file out_json_file
             error_log_file content st st1); [exact L | exact E | exact W].
  - intros pre post bad vs_pre vs_post e reply body e' F Ppre Ppost E C R W.
    destruct (extract_blocks_one_failure w input_file st pre post bad
                vs_pre vs_post e reply body e' Ppre Ppost E C R)
      as [st1 B].
    apply (extract_json_from_text_delivers w input_file out_json_file
             error_log_file content st st1); [exact L | | exact W].
    rewrite F. exact B.
  - intros pre post bad vs_pre e F Ppre E C.
    destruct (extract_blocks_service_down w input_file st pre post bad
                vs_pre e Ppre E C) as [st1 [B S]].
    unfold extract_json_from_text, bind, read_file.
    rewrite L, F, B. cbn [fst snd]. split; [reflexivity | exact S].
Qed.

Lemma key_eqb_eq a b : key_eqb a b = true <-> a = b.
Proof.
  destruct a, b; cbn; split; intros H; try discriminate; try reflexivity.
  - apply Z.eqb_eq in H. now subst.
  - injection H as ->. apply Z.eqb_refl.
  - apply String.eqb_eq in H. now subst.
  - injection H as ->. apply String.eqb_refl.
Qed.

Lemma in_set_In k names : in_set k names = true <-> In k names.
Proof.
  unfold in_set. rewrite existsb_exists. split.
  - intros [x [I E]]. apply key_eqb_eq in E. now subst.
  - intros I. exists k. split; [exact I | now apply key_eqb_eq].
Qed.

Lemma name_of_completed ele : name_of (completed ele) = name_of ele.
Proof.
  destruct ele; try reflexivity. unfold name_of, completed, getitem, with_defaults.
  assert (G : forall v d, dict_get "japanesename" (dict_set "gender" v d) =
                          dict_get "japanesename" d)
    by (intros; now apply dict_get_set_other).
  assert (I : forall v d, dict_get "japanesename" (dict_set "ischar" v d) =
                          dict_get "japanesename" d)
    by (intros; now apply dict_get_set_other).
  destruct (dict_has "gender" fields);
    match goal with |- context [dict_has "ischar" ?d] =>
      destruct (dict_has "ischar" d) end;
    rewrite ?I, ?G; reflexivity.
Qed.

(** What one entry does to [(names_read, processed_json_eles)]. *)
Lemma merge_entry_cases acc ele acc' :
  merge_entry acc ele = Ok acc' ->
  exists k, name_of ele = Some k /\
    ((In k (fst acc) /\ acc' = acc) \/
     (~ In k (fst acc) /\
      acc' = ((fst acc ++ [k])%list, (snd acc ++ [completed ele])%list))).
Proof.
  unfold merge_entry, name_of.
  destruct (getitem ele "japanesename") as [name|e] eqn:G; [|discriminate].
  destruct (hash_key name) as [k|e]; [|discriminate].
  intros H. exists k. split; [reflexivity|].
  destruct (in_set k (fst acc)) eqn:S.
  - left. apply in_set_In in S. injection H as <-. auto.
  - right. split.
    + intros I. apply in_set_In in I. congruence.
    + destruct ele; try discriminate. injection H as <-. reflexivity.
Qed.

Lemma merge_entry_known acc ele k :
  name_of ele = Some k -> In k (fst acc) -> merge_entry acc ele = Ok acc.
Proof.
  unfold merge_entry, name_of. intros N I.
  destruct (getitem ele "japanesename") as [name|e]; [|discriminate].
  destruct (hash_key name) as [k'|e]; [|discriminate].
  injection N as ->. apply in_set_In in I. now rewrite I.
Qed.

Lemma merge_entries_app xs ys acc :
  merge_entries (xs ++ ys) acc =
  match merge_entries xs acc with
  | Ok acc' => merge_entries ys acc'
  | Raise e => Raise e
  end.
Proof.
  revert acc. induction xs as [|x xs IH]; intros acc; [reflexivity|].
  cbn. destruct (merge_entry acc x); [apply IH | reflexivity].
Qed.

Lemma merge_batches_app xs ys acc :
  merge_batches (xs ++ ys) acc =
  match merge_batches xs acc with
  | Ok acc' => merge_batches ys acc'
  | Raise e => Raise e
  end.
Proof.
  revert acc. induction xs as [|x xs IH]; intros acc; [reflexivity|].
  cbn. destruct (iterate x); [|reflexivity].
  destruct (merge_entries a acc); [apply IH | reflexivity].
Qed.

Lemma merge_batches_flat batches : forall acc acc',
  merge_batches batches acc = Ok acc' ->
  merge_entries (entries_of batches) acc = Ok acc'.
Proof.
  induction batches as [|b bs IH]; intros acc acc' H; [exact H|].
  cbn in *. destruct (iterate b) as [eles|e]; [|discriminate].
  rewrite merge_entries_app.
  destruct (merge_entries eles acc) as [acc1|e]; [|discriminate].
  now apply IH.
Qed.

(** The names read only grow, and hold the name of every entry met. *)
Lemma merge_entries_names eles : forall acc acc',
  merge_entries eles acc = Ok acc' ->
  incl (fst acc) (fst acc') /\
  forall ele, In ele eles -> exists k, name_of ele = Some k /\ In k (fst acc').
Proof.
  induction eles as [|x xs IH]; intros acc acc' H.
  - injection H as <-. split; [apply incl_refl | intros ? []].
  - cbn in H. destruct (merge_entry acc x) as [acc1|e] eqn:E; [|discriminate].
    destruct (IH acc1 acc' H) as [I1 N1].
    destruct (merge_entry_cases acc x acc1 E) as [k [Nk [[Ik ->]|[_ ->]]]].
    + split; [exact I1|]. intros ele [<-|I]; [|now apply N1].
      exists k. split; [exact Nk | now apply I1].
    + cbn [fst] in I1. split.
      * intros y Iy. apply I1, in_or_app. now left.
      * intros ele [<-|I]; [|now apply N1].
        exists k. split; [exact Nk|]. apply I1, in_or_app. right. now left.
Qed.

(** Entries whose names are all read already change nothing. *)
Lemma merge_entries_known eles : forall acc,
  (forall ele, In ele eles -> exists k, name_of ele = Some k /\ In k (fst acc)) ->
  merge_entries eles acc = Ok acc.
Proof.
  induction eles as [|x xs IH]; intros acc K; [reflexivity|].
  cbn. destruct (K x (or_introl eq_refl)) as [k [Nk Ik]].
  rewrite (merge_entry_known acc x k Nk Ik).
  apply IH. intros ele I. apply K. now right.
Qed.

Lemma merge_batches_names batches : forall acc acc',
  merge_batches batches acc = Ok acc' ->
  incl (fst acc) (fst acc') /\
  forall batch, In batch batches ->
    exists eles, iterate batch = Ok eles /\
      forall ele, In ele eles ->
        exists k, name_of ele = Some k /\ In k (fst acc').
Proof.
  induction batches as [|b bs IH]; intros acc acc' H.
  - injection H as <-. split; [apply incl_refl | intros ? []].
  - cbn in H. destruct (iterate b) as [eles|e] eqn:E; [|discriminate].
    destruct (merge_entries eles acc) as [acc1|e] eqn:E1; [|discriminate].
    destruct (merge_entries_names eles acc acc1 E1) as [I1 N1].
    destruct (IH acc1 acc' H) as [I2 N2].
    split; [eapply incl_tran; eauto|].
    intros batch [<-|I]; [|now apply N2].
    exists eles. split; [exact E|]. intros ele Ie.
    destruct (N1 ele Ie) as [k [Nk Ik]]. exists k. split; [exact Nk | now apply I2].
Qed.

Lemma merge_batches_known batches : forall acc,
  (forall batch, In batch batches ->
     exists eles, iterate batch = Ok eles /\
       forall ele, In ele eles ->
         exists k, name_of ele = Some k /\ In k (fst acc)) ->
  merge_batches batches acc = Ok acc.
Proof.
  induction batches as [|b bs IH]; intros acc K; [reflexivity|].
  cbn. destruct (K b (or_introl eq_refl)) as [eles [E N]].
  rewrite E, (merge_entries_known eles acc N).
  apply IH. intros batch I. apply K. now right.
Qed.

Lemma merge_entries_first_kept eles : forall seen acc acc',
  first_kept seen acc ->
  merge_entries eles acc = Ok acc' ->
  first_kept (seen ++ eles) acc'.
Proof.
  induction eles as [|x xs IH]; intros seen acc acc' I H.
  - injection H as <-. now rewrite app_nil_r.
  - cbn in H. destruct (merge_entry acc x) as [acc1|e] eqn:E; [|discriminate].
    replace (seen ++ x :: xs)%list with ((seen ++ [x]) ++ xs)%list
      by now rewrite <- app_assoc.
    apply (IH (seen ++ [x])%list acc1 acc'); [|exact H].
    destruct I as [I1 [I2 [I3 I4]]].
    destruct (merge_entry_cases acc x acc1 E) as [k [Nk [[Ik ->]|[Nin ->]]]].
    + repeat split; auto.
      * intros ele Ie. apply in_app_or in Ie. destruct Ie as [Ie|[<-|[]]]; eauto.
      * intros o Io. destruct (I4 o Io) as [b [ele [a [-> [-> Hb]]]]].
        exists b, ele, (a ++ [x])%list. repeat split; auto.
        now rewrite <- app_assoc.
    + unfold first_kept. cbn [fst snd]. repeat split.
      * rewrite !map_app, I1. cbn. now rewrite name_of_completed, Nk.
      * apply NoDup_app; auto.
        -- constructor; [intros [] | constructor].
        -- intros y Iy [<-|[]]. contradiction.
      * intros ele Ie. apply in_app_or in Ie. destruct Ie as [Ie|[<-|[]]].
        -- destruct (I3 ele Ie) as [k' [Nk' Ik']]. exists k'. split; auto.
           apply in_or_app. now left.
        -- exists k. split; auto. apply in_or_app. right. now left.
      * intros o Io. apply in_app_or in Io. destruct Io as [Io|[<-|[]]].
        -- destruct (I4 o Io) as [b [ele [a [-> [-> Hb]]]]].
           exists b, ele, (a ++ [x])%list. repeat split; auto.
           now rewrite <- app_assoc.
        -- exists seen, x, []. repeat split; auto.
           intros ele' Ie' Eq. destruct (I3 ele' Ie') as [k' [Nk' Ik']].
           rewrite Nk, Nk' in Eq. injection Eq as ->. contradiction.
Qed.

Lemma NoDup_map_Some {A : Type} (l : list A) :
  NoDup l -> NoDup (map Some l).
Proof.
  induction 1 as [|x l N _ IH]; cbn; constructor; [|exact IH].
  intros I. apply in_map_iff in I. destruct I as [y [E I]].
  injection E as ->. contradiction.
Qed.

Lemma first_kept_start : first_kept [] ([], []).
Proof.
  repeat split; try constructor; intros ? [].
Qed.

(** C8: the merge is idempotent (the batches taken twice give the entries
    of the batches taken once, or the same exception), and what it returns
    holds one entry for each name: the names of the entries are pairwise
    different, every entry read has its name among them, and each is the
    first entry read under its name, completed with the default fields. *)
Theorem glossary_merge_keeps_first_occurrences (batches : list json) :
  glossary_merge (JArr (batches ++ batches)) = glossary_merge (JArr batches) /\
  forall out : list json,
    glossary_merge (JArr batches) = Ok out ->
    NoDup (map name_of out) /\
    (forall ele, In ele (entries_of batches) ->
       exists o, In o out /\ name_of o = name_of ele) /\
    (forall o, In o out ->
       exists before ele after,
         entries_of batches = (before ++ ele :: after)%list /\
         o = completed ele /\
         forall ele', In ele' before -> name_of ele' <> name_of ele).
Proof.
  unfold glossary_merge. cbn [iterate]. split.
  - rewrite merge_batches_app.
    destruct (merge_batches batches ([], [])) as [acc|e] eqn:E; [|reflexivity].
    destruct (merge_batches_names batches ([], []) acc E) as [_ N].
    now rewrite (merge_batches_known batches acc N).
  - intros out H.
    destruct (merge_batches batches ([], [])) as [acc|e] eqn:E; [|discriminate].
    injection H as <-.
    apply merge_batches_flat in E.
    destruct (merge_entries_first_kept (entries_of batches) [] ([], []) acc
                first_kept_start E) as [I1 [I2 [I3 I4]]].
    cbn [app] in I3, I4. repeat split.
    + rewrite I1. now apply NoDup_map_Some.
    + intros ele Ie. destruct (I3 ele Ie) as [k [Nk Ik]].
      assert (Is : In (Some k) (map name_of (snd acc)))
        by (rewrite I1; now apply in_map).
      apply in_map_iff in Is. destruct Is as [o [No Io]].
      exists o. split; [exact Io | congruence].
    + exact I4.
Qed.

#[local] Transparent AYA_EXP SYSTEM_PROMPT CHECK_GLOSSARY
  VN_NSS_JSON_TRANSLATION_INSTRUCTION FIX_JSON_PROMPT_TEMPLATE failure_message
  strip findall_json str_of_nat.

(** A body and a repair that both hold no JSON. *)
Lemma loadJsonWithReTry_repairs_once_witness :
  fst (loadJsonWithReTry (scripted ["```json still oops ```"])
         "raw_glossary.txt" 1 " oops " nothing_yet) =
    Ok (JNull,
        Some (failure_message 1 "raw_glossary.txt" " still oops "
                "Expecting value: line 1 column 1 (char 0)")) /\
  requests (output (snd (loadJsonWithReTry
                           (scripted ["```json still oops ```"])
                           "raw_glossary.txt" 1 " oops " nothing_yet))) = 1 /\
  parse_attempts (output (snd (loadJsonWithReTry
                                 (scripted ["```json still oops ```"])
                                 "raw_glossary.txt" 1 " oops " nothing_yet))) = 2.
Proof.
  destruct (loadJsonWithReTry_repairs_once
              (scripted ["```json still oops ```"]) "raw_glossary.txt" 1
              " oops " nothing_yet) as [new [Hout [_ [_ [_ H]]]]].
  destruct (H "Expecting value: line 1 column 1 (char 0)"
              "```json still oops ```" " still oops " []
              "Expecting value: line 1 column 1 (char 0)")
    as [Hf [Hr Hp]]; try reflexivity.
  rewrite Hout. cbn [output nothing_yet app]. auto.
Defined.

(** A reply in plain words to the sample record. *)
Lemma record_without_fenced_region_is_dropped_witness :
  fst (translate_element (scripted ["I cannot translate this."]) translator
         "a.json" ([], []) (0, source_record) nothing_yet) = Ok ([], []).
Proof.
  rewrite (record_without_fenced_region_is_dropped
             (scripted ["I cannot translate this."]) translator "a.json"
             ([], []) 0 source_record (JArr [JStr "「やあ」"]) nothing_yet
             "I cannot translate this."); reflexivity.
Defined.

(** C5 fails as stated: the payload names the speaker [Bob], the source
    record [【ボブ】], and the record appended to the output has the speaker
    of the source record. *)
Lemma translated_record_keeps_source_speakers :
  exists out : list (string * json),
    fst (translate_element (scripted [fenced_payload]) translator "a.json"
           ([], []) (0, source_record) nothing_yet) = Ok ([JObj out], []) /\
    json_loads (scripted [fenced_payload]) (strip (LF ++ payload_text ++ LF)) =
      inr payload /\
    getitem payload "Name" = Ok (JArr [JStr "Bob"]) /\
    dict_get "Name" out = Some (JArr [JStr "【ボブ】"]) /\
    dict_get "Name" out <> Some (JArr [JStr "Bob"]).
Proof.
  eexists. split; [vm_compute; reflexivity|].
  repeat split; try reflexivity. vm_compute. discriminate.
Qed.

(** The sample record, answered with the fenced payload. *)
Lemma translated_record_takes_label_voice_and_name_from_source_witness :
  exists out : list (string * json),
    fst (translate_element (scripted [fenced_payload]) translator "a.json"
           ([], []) (0, source_record) nothing_yet) = Ok ([JObj out], []) /\
    dict_get "text label" out = Some (JStr "[text001]") /\
    dict_get "voice tag" out = Some (JArr [JStr "<voice name=bob>"]) /\
    dict_get "Name" out = Some (JArr [JStr "【ボブ】"]) /\
    dict_get "text" out = Some (JArr [JStr "Hi"]).
Proof.
  destruct (translated_record_takes_label_voice_and_name_from_source
              (scripted [fenced_payload]) translator "a.json" ([], []) 0
              source_record (JArr [JStr "「やあ」"]) (JStr "[text001]")
              (JArr [JStr "<voice name=bob>"]) (JArr [JStr "【ボブ】"])
              nothing_yet
              (snd (translate_element (scripted [fenced_payload]) translator
                      "a.json" ([], []) (0, source_record) nothing_yet))
              fenced_payload (LF ++ payload_text ++ LF) []
              [("text", JArr [JStr "Hi"]); ("Name", JArr [JStr "Bob"])])
    as [out [H [HL [HV [HN HO]]]]]; try reflexivity.
  exists out. rewrite H. repeat split; auto.
  rewrite HO by discriminate. reflexivity.
Defined.

(** A file of three regions, the second of which holds no JSON, and a
    service whose reply to the repair request holds no fenced region: the
    values of the first and the third region go to the output file, and the
    failure of the second, under the index 1, to the error log. *)
Lemma extraction_gives_one_result_per_region_witness :
  findall_json three_regions = [" [1] "; " oops "; " [3] "] /\
  delivers (always "no fence") "glossary.json" "errors.txt"
    [JArr [JInt 1]; JArr [JInt 3]]
    [failure_message 1 "raw_glossary.txt" " oops " "list index out of range"]
    (extract_json_from_text (always "no fence") "raw_glossary.txt"
       "glossary.json" "errors.txt"
       (holding "raw_glossary.txt" three_regions)).
Proof.
  split; [reflexivity|].
  apply (proj1 (proj2 (extraction_gives_one_result_per_region
                         (always "no fence") "raw_glossary.txt"
                         "glossary.json" "errors.txt" three_regions
                         (holding "raw_glossary.txt" three_regions) eq_refl))
           [" [1] "] [" [3] "] " oops " [JArr [JInt 1]] [JArr [JInt 3]]
           "Expecting value: line 1 column 1 (char 0)" "no fence"
           " oops " "list index out of range").
  - reflexivity.
  - repeat constructor.
  - repeat constructor.
  - reflexivity.
  - reflexivity.
  - left. repeat split; reflexivity.
  - split; [reflexivity|]. split; [reflexivity|].
    intros _. split; reflexivity.
Defined.

(** The same file with a service that raises: the second region does not
    parse, the repair request raises, and the extraction raises with it; the
    first and the third region, which parse, are written nowhere. *)
Lemma service_failure_aborts_extraction :
  findall_json three_regions = [" [1] "; " oops "; " [3] "] /\
  parses (scripted []) " [1] " (JArr [JInt 1]) /\
  json_loads (scripted []) (strip " oops ") =
    inl "Expecting value: line 1 column 1 (char 0)" /\
  parses (scripted []) " [3] " (JArr [JInt 3]) /\
  fst (extract_json_from_text (scripted []) "raw_glossary.txt"
         "glossary.json" "errors.txt"
         (holding "raw_glossary.txt" three_regions)) =
    Raise (OSError "ollama") /\
  files (snd (extract_json_from_text (scripted []) "raw_glossary.txt"
                "glossary.json" "errors.txt"
                (holding "raw_glossary.txt" three_regions))) =
    [("raw_glossary.txt", three_regions)].
Proof. repeat split; reflexivity. Qed.

(** A batch that names [太郎] twice keeps the first entry. *)
Lemma glossary_merge_keeps_first_occurrences_witness :
  glossary_merge (JArr taro_twice) =
    Ok [JObj [("japanesename", JStr "太郎"); ("actualname", JStr "Taro");
              ("gender", JNull); ("ischar", JBool false)]] /\
  NoDup (map name_of
           [JObj [("japanesename", JStr "太郎"); ("actualname", JStr "Taro");
                  ("gender", JNull); ("ischar", JBool false)]]).
Proof.
  split; [reflexivity|].
  apply (proj2 (glossary_merge_keeps_first_occurrences taro_twice)).
  reflexivity.
Defined.

End VnFacts.

(** ** Further properties of the scans *)
Module PyMore.
Import Py DialogueTerms.

(** A separator that does not occur is not found. *)
Lemma split_first_absent sep s :
  contains sep s = false -> split_first sep s = None.
Proof.
  induction s as [|c s IH]; cbn [contains split_first]; intros H;
    apply orb_false_iff in H; destruct H as [H1 H2]; rewrite H1.
  - reflexivity.
  - now rewrite (IH H2).
Qed.

Lemma string_length_app (a b : string) :
  String.length (a ++ b) = String.length a + String.length b.
Proof.
  induction a as [|x a IH]; cbn; [reflexivity | now rewrite IH].
Qed.

Lemma startswith_app p s : startswith p (p ++ s) = true.
Proof.
  induction p as [|a p IH]; [reflexivity|].
  cbn. now rewrite Ascii.eqb_refl, IH.
Qed.

Lemma drop_app p s : drop (String.length p) (p ++ s) = s.
Proof.
  induction p as [|a p IH]; [now destruct s | exact IH].
Qed.

Lemma split_first_here sep s :
  startswith sep s = true ->
  split_first sep s = Some (EmptyString, drop (String.length sep) s).
Proof.
  intros H. destruct s; cbn [split_first]; now rewrite H.
Qed.

(** A separator is found where it first stands: after a text that lacks
    its first character. *)
Lemma split_first_after c sep before after :
  lacks c before = true ->
  split_first (String c sep) (before ++ String c sep ++ after) =
    Some (before, after).
Proof.
  intros L. induction before as [|x before IH].
  - change (EmptyString ++ String c sep ++ after)%string
      with (String c sep ++ after)%string.
    rewrite split_first_here by apply startswith_app.
    now rewrite drop_app.
  - cbn [lacks] in L. apply andb_true_iff in L. destruct L as [N L].
    specialize (IH L). cbn [append] in IH |- *. cbn [split_first startswith].
    rewrite Ascii.eqb_sym in N. apply negb_true_iff in N. rewrite N.
    cbn [andb]. now rewrite IH.
Qed.

(** X7: a fenced region is found as it stands: when neither the text before
    the opening fence nor the body holds a backtick, the first match of the
    scan is the body, and the scan goes on after the closing fence. *)
Theorem findall_json_finds_fenced_body (before body rest : string) :
  lacks "`" before = true ->
  lacks "`" body = true ->
  findall_json (before ++ "```json" ++ body ++ "```" ++ rest) =
    body :: findall_json rest.
Proof.
  intros LB LY. unfold findall_json at 1.
  destruct (String.length (before ++ "```json" ++ body ++ "```" ++ rest))
    as [|n] eqn:E.
  { rewrite !string_length_app in E. cbn in E. lia. }
  cbn [findall_json_fuel].
  rewrite (split_first_after "`" "``json" before (body ++ "```" ++ rest) LB).
  rewrite (split_first_after "`" "``" body rest LY).
  f_equal. apply PyFacts.findall_json_fuel_enough.
  rewrite !string_length_app in E. cbn in E. lia.
Qed.

(** A reply in the shape the prompts ask for. *)
Lemma findall_json_finds_fenced_body_witness :
  findall_json ("Here you are:" ++ LF ++ "```json" ++ " [1] " ++ "```" ++ LF) =
    " [1] " :: findall_json LF.
Proof.
  apply (findall_json_finds_fenced_body ("Here you are:" ++ LF) " [1] " LF);
    reflexivity.
Defined.

(** X8: a text without an opening fence holds no fenced region. *)
Theorem findall_json_needs_opening_fence (s : string) :
  contains "```json" s = false -> findall_json s = [].
Proof.
  intros C. unfold findall_json.
  destruct (String.length s); [reflexivity|].
  cbn [findall_json_fuel]. now rewrite (split_first_absent "```json" s C).
Qed.

Lemma findall_json_needs_opening_fence_witness :
  findall_json "I cannot translate this." = [].
Proof.
  apply (findall_json_needs_opening_fence "I cannot translate this.").
  reflexivity.
Defined.

(** X9: a [PRE] element is found as it stands: when the text before it and
    its body hold no [<] and its attributes no [>], the first match of the
    scan is the body, and the scan goes on after the closing tag. *)
Theorem findall_pre_finds_element_body (before attrs body rest : string) :
  lacks "<" before = true ->
  lacks ">" attrs = true ->
  lacks "<" body = true ->
  findall_pre (before ++ "<PRE" ++ attrs ++ ">" ++ body ++ "</PRE>" ++ rest) =
    body :: findall_pre rest.
Proof.
  intros LB LA LY. unfold findall_pre at 1.
  destruct (String.length
              (before ++ "<PRE" ++ attrs ++ ">" ++ body ++ "</PRE>" ++ rest))
    as [|n] eqn:E.
  { rewrite !string_length_app in E. cbn in E. lia. }
  cbn [findall_pre_fuel].
  rewrite (split_first_after "<" "PRE" before
             (attrs ++ ">" ++ body ++ "</PRE>" ++ rest) LB).
  rewrite (split_first_after ">" "" attrs (body ++ "</PRE>" ++ rest) LA).
  rewrite (split_first_after "<" "/PRE>" body rest LY).
  f_equal. apply PyFacts.findall_pre_fuel_enough.
  rewrite !string_length_app in E. cbn in E. lia.
Qed.

Lemma findall_pre_finds_element_body_witness :
  findall_pre ("head" ++ "<PRE" ++ " class=t" ++ ">" ++ "「a」" ++ "</PRE>" ++ "tail") =
    "「a」" :: findall_pre "tail".
Proof.
  apply (findall_pre_finds_element_body "head" " class=t" "「a」" "tail");
    reflexivity.
Defined.

End PyMore.

(** ** Further properties of the dialogue-block parser *)
Module NssMore.
Import Py NssExtractor BlockGrammar NssSamples DialogueTerms MoreSamples.

Lemma string_app_assoc (a b c : string) : ((a ++ b) ++ c = a ++ (b ++ c))%string.
Proof.
  induction a as [|x a IH]; cbn; [reflexivity | now rewrite IH].
Qed.

(** Joining with line breaks does not tell a text of two lines from two
    texts. *)
Lemma concat_cons2 sep x y l :
  String.concat sep (x :: y :: l) =
  (x ++ sep ++ String.concat sep (y :: l))%string.
Proof. reflexivity. Qed.

Lemma concat_joined_line ts t line rest :
  String.concat LF (ts ++ (t ++ LF ++ line)%string :: rest) =
  String.concat LF (ts ++ t :: line :: rest).
Proof.
  induction ts as [|x ts IH].
  - cbn [app]. rewrite concat_cons2.
    destruct rest as [|r rest]; [reflexivity|].
    now rewrite !concat_cons2, !string_app_assoc.
  - destruct ts as [|y ts]; cbn [app] in *.
    + now rewrite (concat_cons2 LF x), (concat_cons2 LF x t), IH.
    + now rewrite (concat_cons2 LF x), (concat_cons2 LF x y), IH.
Qed.

Lemma extend_last_joined ts t line :
  extend_last (ts ++ [t]) line = (ts ++ [(t ++ LF ++ line)%string])%list.
Proof.
  induction ts as [|t0 ts IH]; [reflexivity|].
  destruct ts as [|t1 ts'].
  - reflexivity.
  - change (extend_last ((t0 :: t1 :: ts') ++ [t]) line)
      with (t0 :: extend_last ((t1 :: ts') ++ [t]) line).
    rewrite IH. reflexivity.
Qed.

(** What one line does to [text], up to the grouping of lines into texts. *)
Lemma process_line_text ele line rest :
  String.concat LF (text (process_line ele line) ++ rest) =
  String.concat LF
    (text ele ++ (if is_dialogue line then [line] else []) ++ rest).
Proof.
  unfold is_dialogue, classify, process_line.
  destruct (String.eqb line EmptyString); [reflexivity|].
  destruct (contains "[text" line); [reflexivity|].
  destruct (contains "「" line).
  { cbn [text open_utterance]. now rewrite <- app_assoc. }
  destruct (contains "【" line); [reflexivity|].
  destruct (contains "<voice" line); [reflexivity|].
  destruct (text ele) as [|t ts] eqn:E; [reflexivity|].
  destruct (contains "」" (last ts t)).
  - cbn [text open_utterance]. rewrite E. now rewrite <- app_assoc.
  - cbn [text].
    destruct (exists_last (l := t :: ts)) as [init [final Ef]]; [discriminate|].
    rewrite Ef, extend_last_joined, <- !app_assoc. cbn [app].
    apply concat_joined_line.
Qed.

Lemma process_lines_text lines : forall ele rest,
  String.concat LF (text (fold_left process_line lines ele) ++ rest) =
  String.concat LF (text ele ++ filter is_dialogue lines ++ rest).
Proof.
  induction lines as [|line lines IH]; intros ele rest; [reflexivity|].
  cbn [fold_left filter]. rewrite IH, process_line_text.
  destruct (is_dialogue line); reflexivity.
Qed.

(** X1: no dialogue is lost, added or reordered: the texts of a record,
    joined by line breaks, are the dialogue lines of the block (those that
    hold the open-quote marker and the plain ones) joined by line breaks. *)
Theorem texts_are_the_dialogue_lines (lines : list string) :
  String.concat LF (text (process_lines lines)) =
  String.concat LF (filter is_dialogue lines).
Proof.
  unfold process_lines.
  pose proof (process_lines_text lines new_element []) as H.
  rewrite !app_nil_r in H. exact H.
Qed.

Lemma present_app xs ys : present (xs ++ ys) = (present xs ++ present ys)%list.
Proof. unfold present. apply flat_map_app. Qed.

Lemma present_append_none_unless n xs :
  present (append_none_unless n xs) = present xs.
Proof.
  unfold append_none_unless. destruct (Nat.eqb (List.length xs) n);
    [reflexivity|]. rewrite present_app. cbn. apply app_nil_r.
Qed.

Lemma process_line_present ele line :
  present (Name (process_line ele line)) =
    (present (Name ele) ++ if is_speaker line then [line] else [])%list /\
  present (voice_tag (process_line ele line)) =
    (present (voice_tag ele) ++ if is_voice line then [line] else [])%list.
Proof.
  unfold is_speaker, is_voice, classify, process_line.
  destruct (String.eqb line EmptyString); [now rewrite !app_nil_r|].
  destruct (contains "[text" line); [now rewrite !app_nil_r|].
  destruct (contains "「" line).
  { cbn [Name voice_tag open_utterance].
    now rewrite !present_append_none_unless, !app_nil_r. }
  destruct (contains "【" line).
  { cbn [Name voice_tag]. now rewrite present_app, app_nil_r. }
  destruct (contains "<voice" line).
  { cbn [Name voice_tag].
    now rewrite present_append_none_unless, present_app, app_nil_r. }
  destruct (text ele) as [|t ts]; [now rewrite !app_nil_r|].
  destruct (contains "」" (last ts t)).
  - cbn [Name voice_tag open_utterance].
    now rewrite !present_append_none_unless, !app_nil_r.
  - now rewrite !app_nil_r.
Qed.

Lemma process_lines_present lines : forall ele,
  present (Name (fold_left process_line lines ele)) =
    (present (Name ele) ++ filter is_speaker lines)%list /\
  present (voice_tag (fold_left process_line lines ele)) =
    (present (voice_tag ele) ++ filter is_voice lines)%list.
Proof.
  induction lines as [|line lines IH]; intros ele.
  - cbn. now rewrite !app_nil_r.
  - cbn [fold_left filter].
    destruct (IH (process_line ele line)) as [HN HV].
    destruct (process_line_present ele line) as [SN SV].
    rewrite HN, HV, SN, SV, <- !app_assoc.
    destruct (is_speaker line), (is_voice line); split; reflexivity.
Qed.

(** X2: padding never drops, adds or reorders an annotation: the entries
    of [Name] that are not [None] are the speaker lines of the block in
    order, and those of [voice tag] its voice lines. *)
Theorem annotations_are_the_annotation_lines (lines : list string) :
  present (Name (process_lines lines)) = filter is_speaker lines /\
  present (voice_tag (process_lines lines)) = filter is_voice lines.
Proof.
  apply (process_lines_present lines new_element).
Qed.

Lemma process_line_same a b line :
  same_dialogue a b ->
  same_dialogue (process_line a line) (process_line b line).
Proof.
  intros [HN [HV HT]]. unfold same_dialogue, process_line, open_utterance.
  destruct (String.eqb line EmptyString); [auto|].
  destruct (contains "[text" line); [cbn; auto|].
  destruct (contains "「" line); [cbn; now rewrite HN, HV, HT|].
  destruct (contains "【" line); [cbn; now rewrite HN, HV, HT|].
  destruct (contains "<voice" line); [cbn; now rewrite HN, HV, HT|].
  rewrite HT. destruct (text b) as [|t ts]; [cbn; auto|].
  destruct (contains "」" (last ts t)); cbn; now rewrite HN, HV, ?HT.
Qed.

Lemma process_line_skip ele line :
  is_content line = false -> same_dialogue (process_line ele line) ele.
Proof.
  unfold is_content, classify, process_line, same_dialogue.
  destruct (String.eqb line EmptyString); [auto|].
  destruct (contains "[text" line); [cbn; auto|].
  destruct (contains "「" line); [discriminate|].
  destruct (contains "【" line); [discriminate|].
  destruct (contains "<voice" line); discriminate.
Qed.

Lemma process_lines_same lines : forall a b,
  same_dialogue a b ->
  same_dialogue (fold_left process_line lines a)
                (fold_left process_line (filter is_content lines) b).
Proof.
  induction lines as [|line lines IH]; intros a b S; [exact S|].
  cbn [fold_left filter]. destruct (is_content line) eqn:C.
  - cbn [fold_left]. apply IH. now apply process_line_same.
  - apply IH. destruct (process_line_skip a line C) as [HN [HV HT]].
    destruct S as [SN [SV ST]]. unfold same_dialogue. now rewrite HN, HV, HT.
Qed.

(** X3: empty lines and label lines have no part in the dialogue: taking
    them out of a block changes neither the speakers nor the voice tags nor
    the texts of its record. *)
Theorem blank_and_label_lines_leave_dialogue (lines : list string) :
  Name (process_lines lines) =
    Name (process_lines (filter is_content lines)) /\
  voice_tag (process_lines lines) =
    voice_tag (process_lines (filter is_content lines)) /\
  text (process_lines lines) =
    text (process_lines (filter is_content lines)).
Proof.
  apply (process_lines_same lines new_element new_element).
  repeat split.
Qed.

Lemma repeat_snoc {A : Type} (x : A) n : (repeat x n ++ [x])%list = repeat x (S n).
Proof.
  induction n as [|n IH]; [reflexivity|]. cbn. f_equal. exact IH.
Qed.

Lemma quoted_lines_from lines : forall ts,
  forallb is_opening lines = true ->
  fold_left process_line lines
    {| text_label := None;
       Name := repeat None (List.length ts);
       voice_tag := repeat None (List.length ts);
       text := ts |} =
  {| text_label := None;
     Name := repeat None (List.length (ts ++ lines));
     voice_tag := repeat None (List.length (ts ++ lines));
     text := (ts ++ lines)%list |}.
Proof.
  induction lines as [|line lines IH]; intros ts H.
  - now rewrite app_nil_r.
  - cbn [forallb] in H. apply andb_true_iff in H. destruct H as [O H].
    cbn [fold_left].
    replace (ts ++ line :: lines)%list with ((ts ++ [line]) ++ lines)%list
      by now rewrite <- app_assoc.
    rewrite <- (IH (ts ++ [line])%list H). f_equal.
    unfold is_opening, classify in O. unfold process_line.
    destruct (String.eqb line EmptyString); [discriminate|].
    destruct (contains "[text" line); [discriminate|].
    destruct (contains "「" line).
    + unfold open_utterance, append_none_unless. cbn [text Name voice_tag text_label].
      rewrite repeat_length.
      destruct (Nat.eqb_spec (List.length ts) (List.length ts + 1)); [lia|].
      rewrite repeat_snoc, length_app. cbn [List.length].
      now rewrite Nat.add_1_r.
    + destruct (contains "【" line); [discriminate|].
      destruct (contains "<voice" line); discriminate.
Qed.

(** X4: in a block whose lines all hold the open-quote marker (and no label
    marker) every line is an utterance of its own, with no speaker and no
    voice tag: the texts are the lines, and both other lists hold as many
    [None]. *)
Theorem quoted_lines_are_one_utterance_each (lines : list string) :
  forallb is_opening lines = true ->
  process_lines lines =
    {| text_label := None;
       Name := repeat None (List.length lines);
       voice_tag := repeat None (List.length lines);
       text := lines |}.
Proof.
  intros H. apply (quoted_lines_from lines [] H).
Qed.

(** Three quoted lines. *)
Lemma quoted_lines_are_one_utterance_each_witness :
  process_lines ["「一」"; "「二」"; "「三」"] =
    {| text_label := None;
       Name := [None; None; None];
       voice_tag := [None; None; None];
       text := ["「一」"; "「二」"; "「三」"] |}.
Proof.
  apply (quoted_lines_are_one_utterance_each ["「一」"; "「二」"; "「三」"]).
  reflexivity.
Defined.

(** X5: a file that can be read and holds no [<PRE] is skipped: it is
    announced and nothing else happens. *)
Theorem file_without_pre_is_skipped (fs : FileSystem)
    (out_path root file_name : string) (encoding : option string)
    (content : string) :
  detect_encoding fs (path_join fs root file_name) = Some encoding ->
  read_as fs (path_join fs root file_name) encoding = Some content ->
  contains "<PRE" content = false ->
  process_file fs out_path root file_name =
    [Printed ("Processing file: " ++ path_join fs root file_name)].
Proof.
  intros D R C. unfold process_file, extract_pre_content. rewrite D, R.
  unfold findall_pre. destruct (String.length content) as [|n]; [reflexivity|].
  cbn [findall_pre_fuel].
  now rewrite (PyMore.split_first_absent "<PRE" content C).
Qed.

(** A file of plain text. *)
Lemma file_without_pre_is_skipped_witness :
  process_file plain_fs "out" "in" "a.nss" =
    [Printed "Processing file: in/a.nss"].
Proof.
  apply (file_without_pre_is_skipped plain_fs "out" "in" "a.nss"
           (Some "utf-8") "no markup here"); reflexivity.
Defined.

End NssMore.

(** ** Further properties of the translator *)
Module VnMore.
Import Py VnTranslator VnSamples VnTerms FileTerms MoreSamples VnFacts.

#[local] Opaque AYA_EXP SYSTEM_PROMPT CHECK_GLOSSARY
  VN_NSS_JSON_TRANSLATION_INSTRUCTION FIX_JSON_PROMPT_TEMPLATE failure_message
  strip findall_json str_of_nat.

Lemma emits_nil st : emits [] st = st.
Proof. destruct st. unfold emits. cbn. now rewrite app_nil_r. Qed.

Lemma output_emits evs st : output (emits evs st) = (output st ++ evs)%list.
Proof. reflexivity. Qed.

Lemma files_emits evs st : files (emits evs st) = files st.
Proof. reflexivity. Qed.

(** The events of a call of [loadJsonWithReTry]. *)
Lemma loadJsonWithReTry_state w file_name json_index json_str st :
  exists new,
    snd (loadJsonWithReTry w file_name json_index json_str st) = emits new st /\
    requests new <= 1 /\ parse_attempts new <= 2.
Proof.
  rewrite loadJsonWithReTry_cases.
  destruct (json_loads w (strip json_str)) as [e|v].
  2: { eexists. split; [reflexivity|]. cbn. lia. }
  cbv zeta. destruct (ollama_chat _ _ _ _ _) as [reply|].
  2: { eexists. split; [reflexivity|]. cbn. lia. }
  destruct (findall_json (strip reply)) as [|body rest].
  { eexists. split; [reflexivity|]. cbn. lia. }
  destruct (json_loads w (strip body)); eexists; (split; [reflexivity|]);
    cbn; lia.
Qed.

(** X10: [loadJsonWithReTry] returns data or a failure, never both, and the
    failure it returns is a true value (so [if failure:] tells the two
    apart); it raises only when the request to the generation service does;
    it writes no file. *)
Theorem loadJsonWithReTry_returns_data_or_failure (w : World)
    (file_name : string) (json_index : nat) (json_str : string) (st : state) :
  files (snd (loadJsonWithReTry w file_name json_index json_str st)) =
    files st /\
  ((exists v,
      fst (loadJsonWithReTry w file_name json_index json_str st) =
        Ok (v, None)) \/
   (exists msg,
      fst (loadJsonWithReTry w file_name json_index json_str st) =
        Ok (JNull, Some msg) /\ is_failure (Some msg) = true) \/
   (exists e,
      fst (loadJsonWithReTry w file_name json_index json_str st) =
        Raise (OSError "ollama") /\
      json_loads w (strip json_str) = inl e /\
      ollama_chat w (requests (output st)) AYA_EXP SYSTEM_PROMPT
        (getFixJsonPrompt (strip json_str) e) = None)).
Proof.
  rewrite loadJsonWithReTry_cases.
  destruct (json_loads w (strip json_str)) as [e|v].
  2: { split; [reflexivity|]. left. now exists v. }
  cbv zeta. destruct (ollama_chat _ _ _ _ _) as [reply|] eqn:C.
  2: { split; [reflexivity|]. right. right. exists e. auto. }
  destruct (findall_json (strip reply)) as [|body rest].
  { split; [reflexivity|]. right. left. eexists. split; [reflexivity|].
    apply failure_message_is_failure. }
  destruct (json_loads w (strip body)) as [e'|v'].
  - split; [reflexivity|]. right. left. eexists. split; [reflexivity|].
    apply failure_message_is_failure.
  - split; [reflexivity|]. left. now exists v'.
Qed.

(** X11: a body that does not parse is recovered when the first fenced
    region of the repair reply parses: the repaired value is returned with no
    failure, after one request and two parse attempts. *)
Theorem loadJsonWithReTry_recovers (w : World) (file_name : string)
    (json_index : nat) (json_str : string) (st : state)
    (e reply body : string) (rest : list string) (v : json) :
  json_loads w (strip json_str) = inl e ->
  ollama_chat w (requests (output st)) AYA_EXP SYSTEM_PROMPT
    (getFixJsonPrompt (strip json_str) e) = Some reply ->
  findall_json (strip reply) = body :: rest ->
  json_loads w (strip body) = inr v ->
  fst (loadJsonWithReTry w file_name json_index json_str st) = Ok (v, None) /\
  exists new,
    output (snd (loadJsonWithReTry w file_name json_index json_str st)) =
      (output st ++ new)%list /\
    requests new = 1 /\ parse_attempts new = 2.
Proof.
  intros E C F P. rewrite loadJsonWithReTry_cases, E. cbv zeta.
  rewrite C, F, P. split; [reflexivity|].
  eexists. split; [reflexivity|]. cbn. auto.
Qed.

(** [translate_element], case by case. *)
Lemma translate_element_cases w self file_name acc item st :
  translate_element w self file_name acc item st =
  if truthy (snd item) then
    match getitem (snd item) "text" with
    | Raise e => (Raise e, st)
    | Ok texts =>
        match ollama_chat w (requests (output st)) AYA_EXP SYSTEM_PROMPT
                (get_translate_with_glossary_prompt w self
                   (json_dumps_indent w (JObj [("text", texts)]))
                   VN_NSS_JSON_TRANSLATION_INSTRUCTION) with
        | None =>
            (Raise (OSError "ollama"),
             emit (translation_request w self texts) st)
        | Some reply =>
            match findall_json (strip reply) with
            | [] => (Ok acc, emit (translation_request w self texts) st)
            | block :: _ =>
                match loadJsonWithReTry w file_name (fst item) block
                        (emit (translation_request w self texts) st) with
                | (Ok loaded, st') =>
                    if is_failure (snd loaded)
                    then (Ok (fst acc,
                              (snd acc ++ [failure_text (snd loaded)])%list),
                          st')
                    else
                      match splice (fst loaded) (snd item) with
                      | Ok json_data =>
                          (Ok ((fst acc ++ [json_data])%list, snd acc), st')
                      | Raise e => (Raise e, st')
                      end
                | (Raise e, st') => (Raise e, st')
                end
            end
        end
    end
  else (Ok acc, st).
Proof.
  unfold translate_element. cbv zeta.
  destruct (truthy (snd item)); [|reflexivity].
  unfold bind at 1. unfold lift at 1.
  destruct (getitem (snd item) "text") as [texts|e]; [|reflexivity].
  unfold bind at 1. unfold do_with_text, translation_request.
  destruct (ollama_chat _ _ _ _ _) as [reply|]; [|reflexivity].
  destruct (findall_json (strip reply)) as [|block rest]; [reflexivity|].
  unfold bind at 1.
  destruct (loadJsonWithReTry _ _ _ _ _) as [[loaded|e] st']; [|reflexivity].
  destruct (is_failure (snd loaded)); [reflexivity|].
  unfold bind, lift, ret.
  destruct (splice (fst loaded) (snd item)); reflexivity.
Qed.

(** What one record does to the collected records and the failure log, and
    what it costs. *)
Lemma translate_element_step w self file_name acc item st :
  exists new,
    snd (translate_element w self file_name acc item st) = emits new st /\
    requests new <= 2 /\ parse_attempts new <= 2 /\
    forall acc',
      fst (translate_element w self file_name acc item st) = Ok acc' ->
      acc' = acc \/
      (exists d, acc' = ((fst acc ++ [d])%list, snd acc)) \/
      (exists m, acc' = (fst acc, (snd acc ++ [m])%list)).
Proof.
  rewrite translate_element_cases.
  destruct (truthy (snd item)).
  2: { exists []. rewrite emits_nil. cbn. repeat split; try lia.
       intros acc' H. inversion H. now left. }
  destruct (getitem (snd item) "text") as [texts|e].
  2: { exists []. rewrite emits_nil. cbn. repeat split; try lia.
       intros acc' H. discriminate. }
  destruct (ollama_chat _ _ _ _ _) as [reply|].
  2: { eexists. rewrite emit_one. split; [reflexivity|]. cbn.
       repeat split; try lia. intros acc' H. discriminate. }
  destruct (findall_json (strip reply)) as [|block rest].
  { eexists. rewrite emit_one. split; [reflexivity|]. cbn.
    repeat split; try lia. intros acc' H. inversion H. now left. }
  match goal with
  | |- context [loadJsonWithReTry ?a ?b ?c ?d ?s] =>
      destruct (loadJsonWithReTry_state a b c d s) as [new [S [R P]]];
      destruct (loadJsonWithReTry a b c d s) as [[loaded|e] st']
  end; cbn [snd] in S; subst st'; rewrite emit_one, emits_emits.
  2: { eexists. split; [reflexivity|]. rewrite requests_app, parse_attempts_app.
       cbn. repeat split; try lia. intros acc' H. discriminate. }
  destruct (is_failure (snd loaded)).
  { eexists. split; [reflexivity|].
    rewrite requests_app, parse_attempts_app. cbn. repeat split; try lia.
    intros acc' H. inversion H. right. right. eauto. }
  destruct (splice (fst loaded) (snd item)) as [json_data|e].
  - eexists. split; [reflexivity|].
    rewrite requests_app, parse_attempts_app. cbn. repeat split; try lia.
    intros acc' H. inversion H. right. left. eauto.
  - eexists. split; [reflexivity|].
    rewrite requests_app, parse_attempts_app. cbn. repeat split; try lia.
    intros acc' H. discriminate.
Qed.

(** X12: one record costs at most two requests to the generation service
    (its translation and one repair) and two parse attempts, whatever the
    service replies; and it writes no file. *)
Theorem translate_element_costs_at_most_two_requests (w : World)
    (self : VnTranslator) (file_name : string)
    (acc : list json * list string) (item : nat * json) (st : state) :
  exists new,
    output (snd (translate_element w self file_name acc item st)) =
      (output st ++ new)%list /\
    files (snd (translate_element w self file_name acc item st)) = files st /\
    requests new <= 2 /\ parse_attempts new <= 2.
Proof.
  destruct (translate_element_step w self file_name acc item st)
    as [new [S [R [P _]]]].
  exists new. rewrite S. repeat split; assumption.
Qed.

(** The loop over the records of a file (lines 207-236). *)
Lemma translate_elements_step w self file_name items : forall acc st,
  exists new,
    snd (for_each (translate_element w self file_name) items acc st) =
      emits new st /\
    requests new <= 2 * List.length items /\
    forall acc',
      fst (for_each (translate_element w self file_name) items acc st) =
        Ok acc' ->
      exists collected added,
        fst acc' = (fst acc ++ collected)%list /\
        snd acc' = (snd acc ++ added)%list /\
        List.length collected + List.length added <= List.length items.
Proof.
  induction items as [|item items IH]; intros acc st.
  - exists []. rewrite emits_nil. cbn. repeat split; try lia.
    intros acc' H. inversion H. exists [], []. now rewrite !app_nil_r.
  - cbn [for_each]. unfold bind.
    destruct (translate_element_step w self file_name acc item st)
      as [new1 [S1 [R1 [_ A1]]]].
    destruct (translate_element w self file_name acc item st)
      as [[acc1|e] st1].
    2: { cbn [snd] in S1. subst st1. exists new1. cbn [List.length].
         repeat split; try lia. intros acc' H. discriminate. }
    cbn [snd fst] in S1, A1. subst st1.
    destruct (IH acc1 (emits new1 st)) as [new2 [S2 [R2 A2]]].
    exists (new1 ++ new2)%list. rewrite S2, emits_emits.
    split; [reflexivity|]. rewrite requests_app. cbn [List.length].
    split; [lia|]. intros acc' H.
    destruct (A2 acc' H) as [c2 [a2 [Hc [Ha Hl]]]].
    destruct (A1 acc1 eq_refl) as [->|[[d ->]|[m ->]]]; cbn [fst snd] in *.
    + exists c2, a2. repeat split; auto; lia.
    + exists (d :: c2), a2. rewrite Hc, Ha, <- app_assoc.
      repeat split; auto; cbn [List.length]; lia.
    + exists c2, (m :: a2). rewrite Hc, Ha, <- app_assoc.
      repeat split; auto; cbn [List.length]; lia.
Qed.

Lemma read_nss_json_content_state w file_path st :
  snd (read_nss_json_content w file_path st) = st.
Proof.
  unfold read_nss_json_content, bind, read_file, lift.
  destruct (lookup_file file_path (files st)); [|reflexivity].
  destruct (json_loads w s) as [e|[]]; reflexivity.
Qed.

(** [dump_json_dic_to_json_file], case by case. *)
Lemma dump_json_dic_to_json_file_cases (w : World)
    (out_path : string) (json_dic : json) (st : state) :
  fst (dump_json_dic_to_json_file w out_path json_dic st) = Ok tt /\
  (forall e, open_error w out_path = Some e ->
     snd (dump_json_dic_to_json_file w out_path json_dic st) =
       emit (Printed ("Error saving content to " ++ py_str w json_dic ++
                      ": " ++ e)) st) /\
  (open_error w out_path = None -> encodable json_dic = true ->
     snd (dump_json_dic_to_json_file w out_path json_dic st) =
       {| files := (out_path, json_dumps_indent w json_dic) :: files st;
          output := (output st ++
                     [Wrote out_path (json_dumps_indent w json_dic);
                      Printed ("Content saved to " ++ out_path)])%list |}) /\
  (open_error w out_path = None -> encodable json_dic = false ->
     snd (dump_json_dic_to_json_file w out_path json_dic st) =
       {| files := (out_path, json_dump_cut w json_dic) :: files st;
          output := (output st ++
                     [Wrote out_path (json_dump_cut w json_dic);
                      Printed ("Error saving content to " ++
                               py_str w json_dic ++ ": " ++
                               json_dump_error w json_dic)])%list |}).
Proof.
  unfold dump_json_dic_to_json_file.
  destruct (open_error w out_path) as [e|] eqn:E.
  - repeat split; try discriminate. intros e' H. now inversion H.
  - destruct (encodable json_dic) eqn:C;
      unfold bind, closes, print; repeat split; try discriminate;
      intros _ _; unfold emit; cbn; now rewrite <- app_assoc.
Qed.

(** What a call of [dump_json_dic_to_json_file] can change: it sends no
    request, and the only file it can touch is the one at [out_path]. *)
Lemma dump_json_dic_to_json_file_effect (w : World)
    (out_path : string) (json_dic : json) (st : state) :
  requests (output (snd (dump_json_dic_to_json_file w out_path json_dic st))) =
    requests (output st) /\
  (files (snd (dump_json_dic_to_json_file w out_path json_dic st)) =
     files st \/
   exists content,
     files (snd (dump_json_dic_to_json_file w out_path json_dic st)) =
       (out_path, content) :: files st).
Proof.
  destruct (dump_json_dic_to_json_file_cases w out_path json_dic st)
    as [_ [DE [DY DN]]].
  destruct (open_error w out_path) as [e|].
  - rewrite (DE e eq_refl). cbn [output emit files].
    rewrite requests_app. cbn. split; [lia | now left].
  - destruct (encodable json_dic).
    + rewrite (DY eq_refl eq_refl). cbn [output files].
      rewrite requests_app. cbn. split; [lia | right; now eexists].
    + rewrite (DN eq_refl eq_refl). cbn [output files].
      rewrite requests_app. cbn. split; [lia | right; now eexists].
Qed.

(** X14: a file is written only after all its records went through: when
    [translate_file] raises (a record without ["text"], a payload that is no
    object, a service that fails), no file has been written. *)
Theorem translate_file_raising_writes_nothing (w : World)
    (self : VnTranslator) (root : string) (failure_log : list string)
    (file_name : string) (st : state) (e : exn) :
  fst (translate_file w self root failure_log file_name st) = Raise e ->
  files (snd (translate_file w self root failure_log file_name st)) =
    files st.
Proof.
  destruct (translate_file w self root failure_log file_name st)
    as [r st'] eqn:T.
  cbn [fst snd]. intros ->.
  unfold translate_file in T. cbv zeta in T.
  unfold bind at 1 in T. unfold print at 1 in T.
  unfold bind at 1 in T.
  pose proof (read_nss_json_content_state w (path_join w root file_name)
                (emit (Printed ("Processing file: " ++
                                path_join w root file_name)) st)) as RS.
  destruct (read_nss_json_content _ _ _) as [[elements|e0] st0];
    cbn [snd] in RS; subst st0; [|now inversion T].
  unfold bind at 1 in T.
  destruct (translate_elements_step w self file_name (enumerate elements)
              ([], failure_log)
              (emit (Printed ("Processing file: " ++
                              path_join w root file_name)) st))
    as [new [S _]].
  destruct (for_each _ _ _ _) as [[lists|e1] st1]; cbn [snd] in S; subst st1;
    [|now inversion T].
  unfold bind at 1 in T.
  destruct (dump_json_dic_to_json_file_cases w
              (path_join w (raw_translate_loc self) file_name)
              (JObj [("content", JArr (fst lists))])
              (emits new (emit (Printed ("Processing file: " ++
                                         path_join w root file_name)) st)))
    as [D _].
  destruct (dump_json_dic_to_json_file _ _ _ _) as [[[]|e2] st2];
    cbn [fst] in D; [|discriminate].
  discriminate.
Qed.


(** [translate_file], case by case. *)
Lemma translate_file_cases w self root failure_log file_name st :
  translate_file w self root failure_log file_name st =
  match read_nss_json_content w (path_join w root file_name)
          (emit (Printed ("Processing file: " ++
                          path_join w root file_name)) st) with
  | (Raise e, st0) => (Raise e, st0)
  | (Ok elements, st0) =>
      match for_each (translate_element w self file_name)
              (enumerate elements) ([], failure_log) st0 with
      | (Raise e, st1) => (Raise e, st1)
      | (Ok lists, st1) =>
          (Ok (snd lists),
           snd (dump_json_dic_to_json_file w
                  (path_join w (raw_translate_loc self) file_name)
                  (JObj [("content", JArr (fst lists))]) st1))
      end
  end.
Proof.
  unfold translate_file. cbv zeta. unfold bind at 1. unfold print at 1.
  unfold bind at 1.
  destruct (read_nss_json_content _ _ _) as [[elements|e0] st0];
    [|reflexivity].
  unfold bind at 1.
  destruct (for_each _ _ _ _) as [[lists|e1] st1]; [|reflexivity].
  unfold bind at 1.
  destruct (dump_json_dic_to_json_file_cases w
              (path_join w (raw_translate_loc self) file_name)
              (JObj [("content", JArr (fst lists))]) st1) as [D _].
  destruct (dump_json_dic_to_json_file _ _ _ _) as [[[]|e2] st2];
    cbn [fst] in D; [reflexivity | discriminate].
Qed.

Lemma lookup_file_head path content fs :
  lookup_file path ((path, content) :: fs) = Some content.
Proof. cbn. now rewrite String.eqb_refl. Qed.


(** X16: a dialogue file whose object has no ["content"] key holds no
    record: the output file is written with an empty list, the failure log
    is returned as it was, and no request is sent. *)
Theorem file_without_content_gives_empty_output (w : World)
    (self : VnTranslator) (root : string) (failure_log : list string)
    (file_name : string) (st : state) (content : string)
    (fields : list (string * json)) :
  lookup_file (path_join w root file_name) (files st) = Some content ->
  json_loads w content = inr (JObj fields) ->
  dict_get "content" fields = None ->
  open_error w (path_join w (raw_translate_loc self) file_name) = None ->
  translate_file w self root failure_log file_name st =
    (Ok failure_log,
     {| files :=
          (path_join w (raw_translate_loc self) file_name,
           json_dumps_indent w (JObj [("content", JArr [])])) :: files st;
        output :=
          (output st ++
           [Printed ("Processing file: " ++ path_join w root file_name);
            Wrote (path_join w (raw_translate_loc self) file_name)
              (json_dumps_indent w (JObj [("content", JArr [])]));
            Printed ("Content saved to " ++
                     path_join w (raw_translate_loc self) file_name)])%list
     |}).
Proof.
  intros L J C O. rewrite translate_file_cases.
  unfold read_nss_json_content, bind, read_file, lift. cbn [files emit].
  rewrite L, J, C. cbn [iterate enumerate List.length seq combine for_each].
  unfold ret. cbn [fst snd].
  destruct (dump_json_dic_to_json_file_cases w
              (path_join w (raw_translate_loc self) file_name)
              (JObj [("content", JArr [])])
              (emit (Printed ("Processing file: " ++
                              path_join w root file_name)) st))
    as [_ [_ [DY _]]].
  rewrite (DY O eq_refl). cbn [files output emit]. now rewrite <- app_assoc.
Qed.

Lemma splice_non_object v element label :
  (forall fields, v <> JObj fields) ->
  getitem element "text label" = Ok label ->
  splice v element = Raise TypeError.
Proof.
  intros N L. unfold splice. rewrite L.
  destruct v; try reflexivity. now elim (N fields).
Qed.

(** X17: a reply that parses, but not to an object (a list, a string, a
    number), is no failure for the log: assigning the label onto it raises
    [TypeError], and the record is neither collected nor logged. *)
Theorem payload_that_is_no_object_raises (w : World) (self : VnTranslator)
    (file_name : string) (acc : list json * list string) (index : nat)
    (element texts label v : json) (st st' : state)
    (reply block : string) (rest : list string) :
  truthy element = true ->
  getitem element "text" = Ok texts ->
  ollama_chat w (requests (output st)) AYA_EXP SYSTEM_PROMPT
    (get_translate_with_glossary_prompt w self
       (json_dumps_indent w (JObj [("text", texts)]))
       VN_NSS_JSON_TRANSLATION_INSTRUCTION) = Some reply ->
  findall_json (strip reply) = block :: rest ->
  loadJsonWithReTry w file_name index block
    (emit (Asked AYA_EXP SYSTEM_PROMPT
             (get_translate_with_glossary_prompt w self
                (json_dumps_indent w (JObj [("text", texts)]))
                VN_NSS_JSON_TRANSLATION_INSTRUCTION)) st) =
    (Ok (v, None), st') ->
  (forall fields, v <> JObj fields) ->
  getitem element "text label" = Ok label ->
  translate_element w self file_name acc (index, element) st =
    (Raise TypeError, st').
Proof.
  intros T G C F L N HL.
  rewrite translate_element_cases. cbn [fst snd]. rewrite T, G, C, F.
  unfold translation_request. rewrite L. cbn [fst snd is_failure].
  now rewrite (splice_non_object v element label N HL).
Qed.

(** X18: when the output file cannot be opened, [extract_json_from_text]
    raises after the regions went through: what was parsed is not written,
    and nothing is caught here. *)
Theorem extract_json_from_text_raises_on_unwritable_output (w : World)
    (input_file out_json_file error_log_file content : string)
    (st st1 : state) (lists : list json * list string) (e : string) :
  lookup_file input_file (files st) = Some content ->
  extract_blocks w input_file (findall_json content) st = (Ok lists, st1) ->
  open_error w out_json_file = Some e ->
  extract_json_from_text w input_file out_json_file error_log_file st =
    (Raise (OSError e), st1).
Proof.
  intros R E O. unfold extract_json_from_text, bind, read_file.
  rewrite R, E. unfold dump_file. now rewrite O.
Qed.

(** [extract_json_from_text] when every region parses as it stands. *)
Lemma extract_json_from_text_parsed (w : World)
    (input_file out_json_file error_log_file content : string)
    (st : state) (vs : list json) :
  lookup_file input_file (files st) = Some content ->
  Forall2 (parses w) (findall_json content) vs ->
  open_error w out_json_file = None ->
  encodable (JArr vs) = true ->
  extract_json_from_text w input_file out_json_file error_log_file st =
    (Ok tt,
     {| files := (out_json_file, json_dumps_indent w (JArr vs)) :: files st;
        output :=
          (output st ++
           map (fun b => Parsed (strip b)) (findall_json content) ++
           [Wrote out_json_file (json_dumps_indent w (JArr vs))])%list |}).
Proof.
  intros R P O C. unfold extract_json_from_text, bind, read_file.
  rewrite R. unfold extract_blocks.
  change (enumerate (findall_json content))
    with (enumerate_from 0 (findall_json content)).
  rewrite (extract_blocks_parsed w input_file (findall_json content) vs P).
  cbn [fst snd app]. unfold dump_file. rewrite O, C. unfold closes, ret.
  cbn [files output emits]. now rewrite <- app_assoc.
Qed.

Lemma grows_by_refl allowed st : grows_by allowed st st.
Proof. exists []. split; [reflexivity | constructor]. Qed.

Lemma grows_by_trans allowed st1 st2 st3 :
  grows_by allowed st1 st2 -> grows_by allowed st2 st3 ->
  grows_by allowed st1 st3.
Proof.
  intros [a1 [F1 A1]] [a2 [F2 A2]]. exists (a2 ++ a1)%list.
  rewrite F2, F1, app_assoc. split; [reflexivity|].
  apply Forall_app. now split.
Qed.

Lemma grows_by_weaken (allowed allowed' : string -> Prop) st st' :
  (forall p, allowed p -> allowed' p) ->
  grows_by allowed st st' -> grows_by allowed' st st'.
Proof.
  intros W [a [F A]]. exists a. split; [exact F|].
  eapply Forall_impl; [|exact A]. intros file. apply W.
Qed.

(** A loop whose every turn keeps a relation between the state before and
    the state after keeps it as a whole. *)
Lemma for_each_keeps {A B : Type} (body : B -> A -> M B)
    (R : state -> state -> Prop) (xs : list A) :
  (forall st, R st st) ->
  (forall st1 st2 st3, R st1 st2 -> R st2 st3 -> R st1 st3) ->
  (forall acc x st, In x xs -> R st (snd (body acc x st))) ->
  forall acc st, R st (snd (for_each body xs acc st)).
Proof.
  intros Rr Rt. induction xs as [|x xs IH]; intros Hb acc st; [apply Rr|].
  cbn [for_each]. unfold bind.
  pose proof (Hb acc x st (or_introl eq_refl)) as H1.
  destruct (body acc x st) as [[acc'|e] st1]; cbn [snd] in H1; [|exact H1].
  apply (Rt st st1); [exact H1|].
  apply IH. intros acc0 x0 st0 I. apply Hb. now right.
Qed.

Lemma grows_by_same_files allowed st st' :
  files st' = files st -> grows_by allowed st st'.
Proof. intros F. exists []. split; [exact F | constructor]. Qed.

Lemma translate_file_grows w self root failure_log file_name st :
  grows_by
    (fun p => p = path_join w (raw_translate_loc self) file_name)
    st (snd (translate_file w self root failure_log file_name st)).
Proof.
  rewrite translate_file_cases.
  pose proof (read_nss_json_content_state w (path_join w root file_name)
                (emit (Printed ("Processing file: " ++
                                path_join w root file_name)) st)) as RS.
  destruct (read_nss_json_content _ _ _) as [[elements|e0] st0];
    cbn [snd] in RS; subst st0;
    [|apply grows_by_same_files; reflexivity].
  destruct (translate_elements_step w self file_name (enumerate elements)
              ([], failure_log)
              (emit (Printed ("Processing file: " ++
                              path_join w root file_name)) st))
    as [new [S _]].
  destruct (for_each _ _ _ _) as [[lists|e1] st1]; cbn [snd] in S; subst st1;
    [|apply grows_by_same_files; cbn [snd]; now rewrite files_emits].
  cbn [snd].
  destruct (dump_json_dic_to_json_file_effect w
              (path_join w (raw_translate_loc self) file_name)
              (JObj [("content", JArr (fst lists))])
              (emits new (emit (Printed ("Processing file: " ++
                                         path_join w root file_name)) st)))
    as [_ [F | [content F]]].
  - apply grows_by_same_files. rewrite F. reflexivity.
  - exists [(path_join w (raw_translate_loc self) file_name, content)].
    rewrite F. split; [reflexivity|].
    constructor; [reflexivity | constructor].
Qed.

(** X26: the run of the driver writes nothing but output files: whatever
    the files, the service and the parser do, and whether it ends well or
    raises, the files at its end are those at its start and, before them,
    files at the output path of a file name that the walk lists. *)
Theorem driver_writes_only_output_files (w : World) (self : VnTranslator)
    (st : state) :
  grows_by (is_output_path w self) st
    (snd (create_raw_translation_vn_nss_json w self st)).
Proof.
  unfold create_raw_translation_vn_nss_json.
  apply for_each_keeps;
    [apply grows_by_refl | apply grows_by_trans |].
  intros failure_log dir st1 Id.
  apply for_each_keeps;
    [apply grows_by_refl | apply grows_by_trans |].
  intros failure_log' file_name st2 If.
  apply (grows_by_weaken
           (fun p => p = path_join w (raw_translate_loc self) file_name)).
  - intros p ->. now exists dir, file_name.
  - apply translate_file_grows.
Qed.

(** X19: when every fenced region parses as it stands and the output file
    opens, no request is sent and the error log is not written.  The values
    are dumped to the output file in the order of the regions (an empty text
    gives the empty list); but when a value holds a lone surrogate, the dump
    raises [UnicodeEncodeError], which nothing catches, and the output file
    is left with what was written before. *)
Theorem extract_json_from_text_without_failures (w : World)
    (input_file out_json_file error_log_file content : string)
    (st : state) (vs : list json) :
  lookup_file input_file (files st) = Some content ->
  Forall2 (parses w) (findall_json content) vs ->
  open_error w out_json_file = None ->
  extract_json_from_text w input_file out_json_file error_log_file st =
    if encodable (JArr vs) then
      (Ok tt,
       {| files :=
            (out_json_file, json_dumps_indent w (JArr vs)) :: files st;
          output :=
            (output st ++
             map (fun b => Parsed (strip b)) (findall_json content) ++
             [Wrote out_json_file (json_dumps_indent w (JArr vs))])%list |})
    else
      (Raise UnicodeEncodeError,
       {| files := (out_json_file, json_dump_cut w (JArr vs)) :: files st;
          output :=
            (output st ++
             map (fun b => Parsed (strip b)) (findall_json content) ++
             [Wrote out_json_file (json_dump_cut w (JArr vs))])%list |}).
Proof.
  intros R P O. unfold extract_json_from_text, bind, read_file.
  rewrite R. unfold extract_blocks.
  change (enumerate (findall_json content))
    with (enumerate_from 0 (findall_json content)).
  rewrite (extract_blocks_parsed w input_file (findall_json content) vs P).
  cbn [fst snd app]. unfold dump_file. rewrite O.
  destruct (encodable (JArr vs)); unfold bind, closes, lift, ret;
    cbn [files output emits]; now rewrite <- app_assoc.
Qed.

(** X25: [create_glossary_json] from end to end: when every fenced region
    of the raw glossary parses as it stands, the list written by the
    extraction reads back as it was written, the merge of it succeeds, and
    neither the values nor the merged entries hold a lone surrogate, the
    glossary file ends up holding the merged entries, and no request is
    sent. *)
Theorem create_glossary_json_writes_the_merged_entries (w : World)
    (self : VnTranslator) (st : state) (content : string)
    (vs out : list json) :
  lookup_file (raw_glossary_loc self) (files st) = Some content ->
  Forall2 (parses w) (findall_json content) vs ->
  open_error w (glossary_loc self) = None ->
  encodable (JArr vs) = true ->
  json_loads w (json_dumps_indent w (JArr vs)) = inr (JArr vs) ->
  glossary_merge (JArr vs) = Ok out ->
  encodable (JArr out) = true ->
  fst (create_glossary_json w self st) = Ok tt /\
  lookup_file (glossary_loc self)
    (files (snd (create_glossary_json w self st))) =
    Some (json_dumps_indent w (JArr out)) /\
  requests (output (snd (create_glossary_json w self st))) =
    requests (output st).
Proof.
  intros R P O C J M C'.
  destruct (create_glossary_json w self st) as [r s2] eqn:T.
  unfold create_glossary_json in T. unfold bind at 1 in T.
  rewrite (extract_json_from_text_parsed w (raw_glossary_loc self)
             (glossary_loc self) "glossary_json_creation_error_logs.txt"
             content st vs R P O C) in T.
  unfold bind at 1 in T. unfold read_file in T. cbn [files] in T.
  rewrite lookup_file_head, J in T. unfold bind at 1 in T.
  unfold lift in T. rewrite M in T.
  destruct (dump_json_dic_to_json_file_cases w (glossary_loc self) (JArr out)
              {| files := (glossary_loc self, json_dumps_indent w (JArr vs))
                          :: files st;
                 output := (output st ++
                            map (fun b => Parsed (strip b))
                              (findall_json content) ++
                            [Wrote (glossary_loc self)
                               (json_dumps_indent w (JArr vs))])%list |})
    as [D1 [_ [D3 _]]].
  specialize (D3 O C'). rewrite T in D1, D3. cbn [fst snd] in *. subst r s2.
  cbn [files output].
  repeat split; [apply lookup_file_head |].
  rewrite !requests_app, requests_parsed. cbn. lia.
Qed.

#[local] Transparent AYA_EXP SYSTEM_PROMPT CHECK_GLOSSARY
  VN_NSS_JSON_TRANSLATION_INSTRUCTION FIX_JSON_PROMPT_TEMPLATE failure_message
  strip findall_json str_of_nat.

(** A body that holds no JSON, repaired by the reply. *)
Lemma loadJsonWithReTry_recovers_witness :
  fst (loadJsonWithReTry (scripted ["```json [1] ```"]) "raw_glossary.txt" 0
         " oops " nothing_yet) = Ok (JArr [JInt 1], None) /\
  exists new,
    output (snd (loadJsonWithReTry (scripted ["```json [1] ```"])
                   "raw_glossary.txt" 0 " oops " nothing_yet)) =
      (output nothing_yet ++ new)%list /\
    requests new = 1 /\ parse_attempts new = 2.
Proof.
  apply (loadJsonWithReTry_recovers (scripted ["```json [1] ```"])
           "raw_glossary.txt" 0 " oops " nothing_yet
           "Expecting value: line 1 column 1 (char 0)" "```json [1] ```"
           " [1] " [] (JArr [JInt 1])); reflexivity.
Defined.

(** The sample file with a service that raises at the first request. *)
Lemma translate_file_raising_writes_nothing_witness :
  files (snd (translate_file
                (knowing [(sample_file_text, sample_file)] (scripted []))
                translator "nss" [] "a.json"
                (holding "nss/a.json" sample_file_text))) =
    files (holding "nss/a.json" sample_file_text).
Proof.
  apply (translate_file_raising_writes_nothing
           (knowing [(sample_file_text, sample_file)] (scripted []))
           translator "nss" [] "a.json"
           (holding "nss/a.json" sample_file_text) (OSError "ollama")).
  reflexivity.
Defined.


(** A dialogue file that is an object without ["content"]. *)
Lemma file_without_content_gives_empty_output_witness :
  fst (translate_file (scripted []) translator "nss" ["earlier failure"]
         "a.json" (holding "nss/a.json" payload_text)) =
    Ok ["earlier failure"].
Proof.
  rewrite (file_without_content_gives_empty_output (scripted []) translator
             "nss" ["earlier failure"] "a.json"
             (holding "nss/a.json" payload_text) payload_text
             [("text", JArr [JStr "Hi"]); ("Name", JArr [JStr "Bob"])]);
    reflexivity.
Defined.

(** A reply that fences the list [[1]]. *)
Lemma payload_that_is_no_object_raises_witness :
  fst (translate_element (scripted ["```json [1] ```"]) translator "a.json"
         ([], []) (0, source_record) nothing_yet) = Raise TypeError.
Proof.
  rewrite (payload_that_is_no_object_raises
             (scripted ["```json [1] ```"]) translator "a.json" ([], []) 0
             source_record (JArr [JStr "「やあ」"]) (JStr "[text001]")
             (JArr [JInt 1]) nothing_yet
             (snd (translate_element (scripted ["```json [1] ```"])
                     translator "a.json" ([], []) (0, source_record)
                     nothing_yet))
             "```json [1] ```" " [1] " []);
    try reflexivity.
  intros fields. discriminate.
Defined.

(** One region that parses, and an output file that cannot be opened. *)
Lemma extract_json_from_text_raises_on_unwritable_output_witness :
  fst (extract_json_from_text (read_only (scripted [])) "raw_glossary.txt"
         "glossary.json" "errors.txt"
         (holding "raw_glossary.txt" "```json [1] ```")) =
    Raise (OSError "Permission denied").
Proof.
  rewrite (extract_json_from_text_raises_on_unwritable_output
             (read_only (scripted [])) "raw_glossary.txt" "glossary.json"
             "errors.txt" "```json [1] ```"
             (holding "raw_glossary.txt" "```json [1] ```")
             (snd (extract_blocks (read_only (scripted []))
                     "raw_glossary.txt" [" [1] "]
                     (holding "raw_glossary.txt" "```json [1] ```")))
             ([JArr [JInt 1]], []) "Permission denied"); reflexivity.
Defined.

(** Two regions that parse; and one region whose value is the lone
    surrogate of an unpaired escape. *)
Lemma extract_json_from_text_without_failures_witness :
  fst (extract_json_from_text (scripted []) "raw_glossary.txt"
         "glossary.json" "errors.txt"
         (holding "raw_glossary.txt" "```json [1] ``` ```json [3] ```")) =
    Ok tt /\
  extract_json_from_text half_world "raw_glossary.txt"
    "glossary.json" "errors.txt" (holding "raw_glossary.txt" half_region) =
    (Raise UnicodeEncodeError,
     {| files := [("glossary.json", EmptyString);
                  ("raw_glossary.txt", half_region)];
        output := [Parsed half_text; Wrote "glossary.json" EmptyString] |}).
Proof.
  split.
  - rewrite (extract_json_from_text_without_failures (scripted [])
               "raw_glossary.txt" "glossary.json" "errors.txt"
               "```json [1] ``` ```json [3] ```"
               (holding "raw_glossary.txt" "```json [1] ``` ```json [3] ```")
               [JArr [JInt 1]; JArr [JInt 3]]);
      try reflexivity.
    repeat constructor.
  - rewrite (extract_json_from_text_without_failures half_world
               "raw_glossary.txt" "glossary.json" "errors.txt"
               half_region (holding "raw_glossary.txt" half_region)
               [JStr lone_half]);
      try reflexivity.
    repeat constructor.
Defined.

(** The raw glossary of one fenced batch that names [太郎] twice. *)
Lemma create_glossary_json_writes_the_merged_entries_witness :
  fst (create_glossary_json glossary_world translator
         (holding "raw_glossary.txt" taro_raw_glossary)) = Ok tt /\
  lookup_file (glossary_loc translator)
    (files (snd (create_glossary_json glossary_world translator
                   (holding "raw_glossary.txt" taro_raw_glossary)))) =
    Some (json_dumps_indent glossary_world
            (JArr [JObj [("japanesename", JStr "太郎");
                         ("actualname", JStr "Taro");
                         ("gender", JNull); ("ischar", JBool false)]])) /\
  requests (output (snd (create_glossary_json glossary_world translator
                           (holding "raw_glossary.txt" taro_raw_glossary)))) =
    requests (output (holding "raw_glossary.txt" taro_raw_glossary)).
Proof.
  apply (create_glossary_json_writes_the_merged_entries glossary_world
           translator (holding "raw_glossary.txt" taro_raw_glossary)
           taro_raw_glossary [taro_batch]); try reflexivity.
  repeat constructor.
Defined.

End VnMore.

(** ** Properties of the chunking, the raw runs and the loading of the
    glossary *)
Module RestFacts.
Import Py VnTranslator VnSamples VnTerms VnTranslatorRest RestTerms MoreSamples
  VnFacts.

(** What [range_from] covers when the fuel is enough. *)
Lemma range_from_chunks (n : nat) (tokens : list nat) : forall fuel start,
  List.length tokens - start <= fuel ->
  let starts := range_from fuel start (List.length tokens) (S n) in
  let chunks := map (fun i => firstn (S n) (skipn i tokens)) starts in
  concat chunks = skipn start tokens /\
  Forall (fun c => 1 <= List.length c <= S n) chunks /\
  List.length tokens - start <= List.length chunks * S n /\
  List.length chunks * S n < List.length tokens - start + S n.
Proof.
  induction fuel as [|fuel IH]; intros start F; cbn zeta.
  - cbn [range_from map concat List.length].
    rewrite skipn_all2 by lia. repeat split; try constructor; lia.
  - cbn [range_from]. destruct (Nat.ltb_spec start (List.length tokens)).
    + cbn [map concat List.length].
      destruct (IH (start + S n)) as [C [A [L U]]]; [lia|].
      cbn zeta in C, A, L, U.
      remember (List.length
                  (map (fun i => firstn (S n) (skipn i tokens))
                     (range_from fuel (start + S n) (List.length tokens)
                        (S n)))) as a eqn:Ea.
      clear Ea.
      repeat split.
      * rewrite C.
        replace (start + S n) with (S n + start) by lia.
        rewrite <- skipn_skipn. apply firstn_skipn.
      * constructor; [|exact A].
        rewrite length_firstn, length_skipn. lia.
      * nia.
      * destruct a as [|a]; [lia | nia].
    + cbn [map concat List.length].
      rewrite skipn_all2 by lia. repeat split; try constructor; lia.
Qed.

(** X20: the chunks of [get_chunks] cut the tokens without loss: a step of
    zero gives no chunks at all (the [ValueError] of [range]); any other
    step gives chunks that, put end to end, are the tokens, each holding at
    least one token and at most the step, and no more chunks than it
    takes. *)
Theorem token_chunks_cut_the_tokens (n : nat) (tokens : list nat) :
  token_chunks 0 tokens = None /\
  exists chunks,
    token_chunks (S n) tokens = Some chunks /\
    concat chunks = tokens /\
    Forall (fun c => 1 <= List.length c <= S n) chunks /\
    List.length tokens <= List.length chunks * S n /\
    List.length chunks * S n < List.length tokens + S n.
Proof.
  split; [reflexivity|].
  eexists. split; [reflexivity|].
  destruct (range_from_chunks n tokens (List.length tokens) 0) as [C [A [L U]]];
    [lia|].
  cbn zeta in C, A, L, U. rewrite Nat.sub_0_r in L, U.
  repeat split; assumption.
Qed.

Lemma glossary_set_fresh k v d :
  ~ In k (map fst d) -> glossary_set k v d = (d ++ [(k, v)])%list.
Proof.
  induction d as [|[k' v'] d IH]; intros N; [reflexivity|].
  cbn [glossary_set]. destruct (key_eqb k k') eqn:E.
  - apply key_eqb_eq in E. subst k'. elim N. now left.
  - cbn [app]. rewrite IH; [reflexivity|]. intros I. apply N. now right.
Qed.

Lemma with_defaults_has_gender fields :
  exists g, dict_get "gender" (with_defaults fields) = Some g.
Proof.
  unfold with_defaults.
  destruct (dict_has "gender" fields) eqn:HG.
  - unfold dict_has in HG.
    destruct (dict_get "gender" fields) as [g|] eqn:G; [|discriminate].
    exists g. destruct (dict_has "ischar" fields); [exact G|].
    now rewrite dict_get_set_other.
  - exists JNull.
    destruct (dict_has "ischar" (dict_set "gender" JNull fields)).
    + apply dict_get_set_same.
    + rewrite dict_get_set_other by discriminate. apply dict_get_set_same.
Qed.

(** An entry that the merge completed has a ["gender"]. *)
Lemma completed_entry_has_gender o ele k :
  o = completed ele -> name_of o = Some k ->
  exists g, getitem o "gender" = Ok g.
Proof.
  intros -> N. unfold name_of in N.
  destruct ele; cbn in N; try discriminate.
  cbn [completed getitem].
  destruct (with_defaults_has_gender fields) as [g G]. rewrite G. now exists g.
Qed.

Lemma load_entries_distinct out : forall names loaded,
  map name_of out = map Some names ->
  NoDup (map fst loaded ++ names) ->
  (forall o, In o out -> exists a, getitem o "actualname" = Ok a) ->
  (forall o, In o out -> exists g, getitem o "gender" = Ok g) ->
  exists entries,
    load_entries out loaded = ((loaded ++ entries)%list, None) /\
    map Some entries = map glossary_entry out.
Proof.
  induction out as [|o out IH]; intros names loaded N D A G.
  - exists []. now rewrite app_nil_r.
  - destruct names as [|k names]; [discriminate|].
    cbn [map] in N. injection N as Nk N.
    destruct (A o (or_introl eq_refl)) as [a Ha].
    destruct (G o (or_introl eq_refl)) as [g Hg].
    assert (Hn : exists name, getitem o "japanesename" = Ok name /\
                              hash_key name = Ok k).
    { unfold name_of in Nk.
      destruct (getitem o "japanesename") as [name|]; [|discriminate].
      destruct (hash_key name) as [k'|] eqn:Hh; [|discriminate].
      injection Nk as <-. exists name. now split. }
    destruct Hn as [name [Hname Hk]].
    assert (F : ~ In k (map fst loaded)).
    { intros I. apply NoDup_remove_2 in D. apply D, in_or_app. now left. }
    assert (D' : NoDup (map fst (loaded ++
                                 [(k, JObj [("actualname", a);
                                            ("gender", g)])]) ++ names))
      by (rewrite map_app, <- app_assoc; exact D).
    assert (A' : forall o', In o' out -> exists a', getitem o' "actualname" = Ok a')
      by (intros o' I; apply A; now right).
    assert (G' : forall o', In o' out -> exists g', getitem o' "gender" = Ok g')
      by (intros o' I; apply G; now right).
    destruct (IH names _ N D' A' G') as [entries [L E]].
    exists ((k, JObj [("actualname", a); ("gender", g)]) :: entries).
    cbn [load_entries]. unfold load_entry. rewrite Ha, Hg, Hname, Hk.
    rewrite (glossary_set_fresh k _ loaded F), L, <- app_assoc.
    split; [reflexivity|].
    cbn [map]. rewrite E. unfold glossary_entry at 2. now rewrite Nk, Ha, Hg.
Qed.

(** X21: a glossary that the merge returned loads entry for entry: when
    every entry has an ["actualname"], [load_glossary]'s loop raises nothing
    (the ["gender"] it reads is there by the merge's default), and the dict
    it builds has one entry for each glossary entry, in order, none
    overwritten. *)
Theorem merged_glossary_loads_entry_for_entry (data : json)
    (out : list json) :
  glossary_merge data = Ok out ->
  (forall o, In o out -> exists a, getitem o "actualname" = Ok a) ->
  exists loaded,
    load_entries out [] = (loaded, None) /\
    map Some loaded = map glossary_entry out.
Proof.
  intros M A. unfold glossary_merge in M.
  destruct (iterate data) as [batches|e]; [|discriminate].
  destruct (merge_batches batches ([], [])) as [acc|e] eqn:E; [|discriminate].
  injection M as <-.
  apply merge_batches_flat in E.
  destruct (merge_entries_first_kept (entries_of batches) [] ([], []) acc
              first_kept_start E) as [I1 [I2 [_ I4]]].
  apply (load_entries_distinct (snd acc) (fst acc) []); auto.
  intros o Io. destruct (I4 o Io) as [before [ele [after [_ [Ho _]]]]].
  assert (Is : In (name_of o) (map name_of (snd acc))) by now apply in_map.
  rewrite I1 in Is. apply in_map_iff in Is. destruct Is as [k [Hk _]].
  now apply (completed_entry_has_gender o ele k).
Qed.

Lemma load_entries_app xs ys loaded :
  load_entries (xs ++ ys) loaded =
  match load_entries xs loaded with
  | (loaded', None) => load_entries ys loaded'
  | (loaded', Some e) => (loaded', Some e)
  end.
Proof.
  revert loaded. induction xs as [|x xs IH]; intros loaded; [reflexivity|].
  cbn [app load_entries]. destruct (load_entry loaded x); [apply IH | reflexivity].
Qed.

(** X22: an entry without ["actualname"] stops the loading with its
    [KeyError]: the entries before it stay loaded, those after it are never
    read. *)
Theorem load_stops_at_entry_without_actualname
    (before after : list json) (ele : json) (fields : list (string * json))
    (loaded loaded' : list (key * json)) :
  load_entries before loaded = (loaded', None) ->
  ele = JObj fields ->
  dict_get "actualname" fields = None ->
  load_entries (before ++ ele :: after) loaded =
    (loaded', Some (KeyError "actualname")).
Proof.
  intros B -> A. rewrite load_entries_app, B.
  cbn [load_entries]. unfold load_entry. cbn [getitem]. now rewrite A.
Qed.




(** X24: both raw runs empty their output file before they read their
    input: when the input cannot be read, the run raises and the output file
    is left empty, whatever it held. *)
Theorem raw_runs_empty_their_output_first (w : World) (tk : Tokenizer)
    (self : VnTranslator) (st : state) :
  (open_error w (raw_glossary_loc self) = None ->
   summary_file self <> raw_glossary_loc self ->
   lookup_file (summary_file self) (files st) = None ->
   create_raw_glossary w tk self st =
     (Raise (OSError (summary_file self)),
      {| files := (raw_glossary_loc self, EmptyString) :: files st;
         output := output st |})) /\
  (open_error w (raw_translate_loc self) = None ->
   raw_loc self <> raw_translate_loc self ->
   lookup_file (raw_loc self) (files st) = None ->
   create_raw_translation_ln w tk self st =
     (Raise (OSError (raw_loc self)),
      {| files := (raw_translate_loc self, EmptyString) :: files st;
         output := output st |})).
Proof.
  split; intros O N L.
  - unfold create_raw_glossary. unfold bind at 1. unfold open_for_writing.
    rewrite O. unfold bind at 1. unfold get_chunks. unfold bind at 1.
    unfold read_file. cbn [files lookup_file].
    apply String.eqb_neq in N. now rewrite N, L.
  - unfold create_raw_translation_ln. unfold bind at 1.
    unfold open_for_writing.
    rewrite O. unfold bind at 1. unfold get_chunks. unfold bind at 1.
    unfold read_file. cbn [files lookup_file].
    apply String.eqb_neq in N. now rewrite N, L.
Qed.


(** The merged glossary of the batch that names [太郎] twice. *)
Lemma merged_glossary_loads_entry_for_entry_witness :
  exists loaded,
    load_entries
      [JObj [("japanesename", JStr "太郎"); ("actualname", JStr "Taro");
             ("gender", JNull); ("ischar", JBool false)]] [] =
      (loaded, None) /\
    map Some loaded =
      map glossary_entry
        [JObj [("japanesename", JStr "太郎"); ("actualname", JStr "Taro");
               ("gender", JNull); ("ischar", JBool false)]].
Proof.
  apply (merged_glossary_loads_entry_for_entry (JArr taro_twice)).
  - reflexivity.
  - intros o [<-|[]]. now exists (JStr "Taro").
Defined.

(** A glossary whose second entry has no ["actualname"]. *)
Lemma load_stops_at_entry_without_actualname_witness :
  load_entries
    ([JObj [("japanesename", JStr "太郎"); ("actualname", JStr "Taro");
            ("gender", JNull)]] ++
     JObj [("japanesename", JStr "花子")] ::
     [JObj [("japanesename", JStr "次郎"); ("actualname", JStr "Jiro");
            ("gender", JNull)]]) [] =
    ([(KStr "太郎", JObj [("actualname", JStr "Taro"); ("gender", JNull)])],
     Some (KeyError "actualname")).
Proof.
  apply (load_stops_at_entry_without_actualname
           [JObj [("japanesename", JStr "太郎"); ("actualname", JStr "Taro");
                  ("gender", JNull)]]
           [JObj [("japanesename", JStr "次郎"); ("actualname", JStr "Jiro");
                  ("gender", JNull)]]
           (JObj [("japanesename", JStr "花子")])
           [("japanesename", JStr "花子")] []); reflexivity.
Defined.


(** A run with no summary file. *)
Lemma raw_runs_empty_their_output_first_witness :
  create_raw_glossary (scripted []) byte_tokens translator
    (holding "raw_glossary.txt" "an earlier glossary") =
    (Raise (OSError (summary_file translator)),
     {| files := (raw_glossary_loc translator, EmptyString) ::
                 files (holding "raw_glossary.txt" "an earlier glossary");
        output := output (holding "raw_glossary.txt" "an earlier glossary")
     |}).
Proof.
  apply (proj1 (raw_runs_empty_their_output_first (scripted []) byte_tokens
                  translator
                  (holding "raw_glossary.txt" "an earlier glossary")));
    [reflexivity | discriminate | reflexivity].
Defined.

End RestFacts.
